(** * Offen: event identifiers, accounts and user-secret rotation

    A shallow embedding of the persistence layer of the offen server:

    - package [persistence]: [NewEventID] and the result types the
      store hands to its callers;
    - package [relational]: [GetAccount], [AssociateUserSecret] and
      [CreateAccount] over the three tables accounts, users and events,
      and the earlier one-argument [GetAccount] (module [part_001]);
    - package [router]: the handlers of events and health over the
      interface of the store.

    Storage calls are effects.  The methods run in a small state-and-error
    monad over a [World]: the committed tables, the working copy of the open
    transaction, the journal of Begin/Commit/Rollback calls, and the sources
    the environment answers from.  Every call that goes to the storage asks
    the [storage] source whether it fails in the driver, whether the source
    text looks at its error or not; uuid.NewV4, newEventID and the key
    generators ask sources of their own.  No query names an order, so the
    rows of a query that matches several come in the order of the [Engine],
    of which only the rows are known.  A method returns what the Go method
    returns: a value or an [error].

    The file has the definitions first, then worked inputs, then the
    proofs. *)

From Stdlib Require Import ZArith String Ascii List Lia.
From stdpp Require Import base option list gmap strings.
Import ListNotations.

(** ** Go's [error] values *)

Inductive error : Type :=
| ErrRecordNotFound                   (* gorm.ErrRecordNotFound *)
| ErrForeign (msg : string)           (* an error of the driver or of a library *)
| ErrUnknownAccount (msg : string)    (* persistence.ErrUnknownAccount *)
| ErrorString (msg : string).         (* what fmt.Errorf builds *)

(** The [Error()] method, as [%v] prints an error. *)
Definition Error (e : error) : string :=
  match e with
  | ErrRecordNotFound => "record not found"
  | ErrForeign msg => msg
  | ErrUnknownAccount msg => msg
  | ErrorString msg => msg
  end.

(** [fmt.Errorf(prefix ++ ": %v", err)] *)
Definition Errorf (prefix : string) (err : error) : error :=
  ErrorString (prefix +:+ ": " +:+ Error err).

(** gorm.IsRecordNotFoundError *)
Definition IsRecordNotFoundError (e : error) : bool :=
  match e with ErrRecordNotFound => true | _ => false end.

(** The type assertion [err.(persistence.ErrUnknownAccount)] of the router. *)
Definition isUnknownAccount (e : error) : bool :=
  match e with ErrUnknownAccount _ => true | _ => false end.

(** ** Package persistence: event identifiers *)

Module persistence.

Local Open Scope Z_scope.

(** A reading of [time.Now()]: seconds since the epoch and the nanoseconds
    within that second. *)
Record Time : Type := mkTime { sec : Z; nsec : Z }.

Definition wrap_uint64 (z : Z) : Z := z mod 2 ^ 64.
Definition wrap_int64 (z : Z) : Z := (z + 2 ^ 63) mod 2 ^ 64 - 2 ^ 63.

(** [t.UnixNano()], an int64 *)
Definition UnixNano (t : Time) : Z := wrap_int64 (sec t * 1000000000 + nsec t).

(** [ulid.Timestamp(t)]: uint64(t.Unix())*1000 + uint64(t.Nanosecond()/1e6) *)
Definition Timestamp (t : Time) : Z :=
  wrap_uint64 (wrap_uint64 (sec t) * 1000 + nsec t / 1000000).

(** [ulid.MaxTime()]: the largest 48-bit timestamp. *)
Definition MaxTime : Z := 2 ^ 48 - 1.

(** A ULID: 48 bits of milliseconds and 80 bits of entropy. *)
Record ULID : Type := mkULID { ms : Z; entropy : Z }.

(** Crockford base 32, the alphabet of ulid. *)
Definition Encoding : string := "0123456789ABCDEFGHJKMNPQRSTVWXYZ".

Definition digit (d : Z) : ascii :=
  match String.get (Z.to_nat d) Encoding with
  | Some c => c
  | None => "0"%char
  end.

(** The [n] low base-32 digits of [v], most significant first, before [acc]. *)
Fixpoint base32 (n : nat) (v : Z) (acc : string) : string :=
  match n with
  | O => acc
  | S k => base32 k (v / 32) (String (digit (v mod 32)) acc)
  end.

(** [id.String()]: ten characters of time, sixteen of entropy. *)
Definition ULID_String (id : ULID) : string :=
  base32 10 (ms id) (base32 16 (entropy id) EmptyString).

Section NewEventID.

(** [mathrand seed]: the first ten bytes read from
    [rand.New(rand.NewSource(seed))], as a big-endian number.  math/rand is
    a deterministic generator: the bytes are a function of the seed. *)
Variable mathrand : Z -> Z.

(** [ulid.New(ms, ulid.Monotonic(r, 0))] with a MonotonicEntropy made for
    this one call.  A new MonotonicEntropy remembers no earlier entropy, so
    its MonotonicRead takes the branch that reads ten bytes from [r]; the
    incrementing branch needs a second read from the same value, which
    never happens here.  math/rand never fails to read. *)
Definition ulid_New (t_ms : Z) (seed : Z) : error + ULID :=
  if MaxTime <? t_ms then inl (ErrForeign "ulid: time too big")
  else inr (mkULID t_ms (mathrand seed mod 2 ^ 80)).

(** func NewEventID() (string, error), given what [time.Now()] returned. *)
Definition NewEventID (t : Time) : error + string :=
  match ulid_New (Timestamp t) (UnixNano t) with
  | inl err => inl err
  | inr eventID => inr (ULID_String eventID)
  end.

(** The identifiers of a run of calls, one per clock reading. *)
Definition NewEventIDs (clock : list Time) : list (error + string) :=
  map NewEventID clock.

End NewEventID.

(** The clock never runs backwards between calls. *)
Definition time_le (a b : Time) : Prop :=
  sec a < sec b \/ (sec a = sec b /\ nsec a <= nsec b).

Fixpoint clock_ordered (clock : list Time) : Prop :=
  match clock with
  | [] => True
  | a :: rest =>
      match rest with
      | [] => True
      | b :: _ => time_le a b /\ clock_ordered rest
      end
  end.

(** Identifiers that all came back without error, strictly increasing as
    strings. *)
Fixpoint strictly_increasing (ids : list (error + string)) : Prop :=
  match ids with
  | [] => True
  | inl _ :: _ => False
  | inr a :: rest =>
      match rest with
      | [] => True
      | inl _ :: _ => False
      | inr b :: _ => String.ltb a b = true /\ strictly_increasing rest
      end
  end.

(** *** What GetAccount returns *)

Module EventResult.
Record t : Type := mk {
  UserID : option string;      (* *string *)
  EventID : string;
  Payload : string;
  AccountID : string
}.
End EventResult.

(** map[string][]EventResult and map[string]string *)
Abbreviation EventsByAccountID := (gmap string (list EventResult.t)).
Abbreviation SecretsByUserID := (gmap string string).

(** [Key] stands for the wrapped public key, an [interface{}] in the source;
    [None] is the nil interface, and the two maps are pointers that stay nil
    when there is nothing to report. *)
Module AccountResult.
Record t (Key : Type) : Type := mk {
  AccountID : string;
  PublicKey : option Key;
  EncryptedSecretKey : string;
  Events : option EventsByAccountID;
  UserSecrets : option SecretsByUserID
}.
Arguments mk {Key}.
Arguments AccountID {Key}.
Arguments PublicKey {Key}.
Arguments EncryptedSecretKey {Key}.
Arguments Events {Key}.
Arguments UserSecrets {Key}.
End AccountResult.

End persistence.

(** ** Package relational: the three tables and the calls of gorm *)

Module relational.

(** Modelled from the spec: the structs User, Event and Account and their
    tables are declared outside the files at hand.  The rows below have the
    columns the methods read and write, which are the fields of the data
    model of the spec; each table has the key the spec and the comments of
    the source name as its primary key: hashed_user_id for users, event_id
    for events, account_id for accounts.  The associations of the Go structs
    (Account.Events, Event.User) are no columns; Preload fills them, see
    [LoadedAccount]. *)

Module User.
Record t : Type := mk { HashedUserID : string; EncryptedUserSecret : string }.
End User.

Module Event.
Record t : Type := mk {
  EventID : string;
  AccountID : string;
  HashedUserID : option string;     (* *string: nil for an anonymous event *)
  Payload : string
}.
End Event.

Module Account.
Record t : Type := mk {
  AccountID : string;
  Name : string;
  PublicKey : string;
  EncryptedSecretKey : string;
  UserSalt : string
}.
End Account.

(** An Event with its User association, and an Account with its Events, as
    Find leaves them in the Go value. *)
Record LoadedEvent : Type := mkLoadedEvent { evt : Event.t; User : User.t }.
Record LoadedAccount : Type :=
  mkLoadedAccount { account : Account.t; Events : list LoadedEvent }.

Record Store : Type := mkStore {
  accounts : list Account.t;
  users : list User.t;
  events : list Event.t
}.

Definition set_accounts (v : list Account.t) (s : Store) : Store :=
  mkStore v (users s) (events s).
Definition set_users (v : list User.t) (s : Store) : Store :=
  mkStore (accounts s) v (events s).
Definition set_events (v : list Event.t) (s : Store) : Store :=
  mkStore (accounts s) (users s) v.

(** *** What the environment answers *)

(** A source answers its n-th question with [answers n]; [asked] counts the
    questions so far. *)
Record Src (A : Type) : Type := mkSrc { answers : nat -> A; asked : nat }.
Arguments mkSrc {A}.
Arguments answers {A}.
Arguments asked {A}.

Definition pull {A} (s : Src A) : A * Src A :=
  (answers s (asked s), mkSrc (answers s) (S (asked s))).

Inductive TxCall : Type := TxBegin | TxCommit | TxRollback.

Record World : Type := mkWorld {
  db : Store;                 (* the committed tables, what r.db works on *)
  txn : option Store;         (* the tables as the open transaction sees them *)
  journal : list TxCall;      (* Begin, Commit and Rollback calls, oldest first *)
  storage : Src bool;         (* true: this storage call fails in the driver *)
  uuid : Src (option string);               (* uuid.NewV4; None: it fails *)
  eventID : Src (option string);            (* newEventID; None: it fails *)
  randomString : Src (option string);       (* keys.GenerateRandomString *)
  keypair : Src (option (string * string))  (* keys.GenerateRSAKeypair: public, private *)
}.

Definition set_db (v : Store) (w : World) : World :=
  mkWorld v (txn w) (journal w) (storage w) (uuid w) (eventID w) (randomString w) (keypair w).
Definition set_txn (v : option Store) (w : World) : World :=
  mkWorld (db w) v (journal w) (storage w) (uuid w) (eventID w) (randomString w) (keypair w).
Definition log_call (c : TxCall) (w : World) : World :=
  mkWorld (db w) (txn w) (journal w ++ [c]) (storage w) (uuid w) (eventID w) (randomString w) (keypair w).
Definition set_storage (v : Src bool) (w : World) : World :=
  mkWorld (db w) (txn w) (journal w) v (uuid w) (eventID w) (randomString w) (keypair w).
Definition set_uuid (v : Src (option string)) (w : World) : World :=
  mkWorld (db w) (txn w) (journal w) (storage w) v (eventID w) (randomString w) (keypair w).
Definition set_eventID (v : Src (option string)) (w : World) : World :=
  mkWorld (db w) (txn w) (journal w) (storage w) (uuid w) v (randomString w) (keypair w).
Definition set_randomString (v : Src (option string)) (w : World) : World :=
  mkWorld (db w) (txn w) (journal w) (storage w) (uuid w) (eventID w) v (keypair w).
Definition set_keypair (v : Src (option (string * string))) (w : World) : World :=
  mkWorld (db w) (txn w) (journal w) (storage w) (uuid w) (eventID w) (randomString w) v.

(** *** The monad of a store method: a result or a Go error, and the world
    after the call. *)

Definition M (A : Type) : Type := World -> (error + A) * World.

Definition ret {A} (a : A) : M A := fun w => (inr a, w).
Definition fail {A} (e : error) : M A := fun w => (inl e, w).
Definition bind {A B} (m : M A) (k : A -> M B) : M B :=
  fun w => match m w with
           | (inr a, w') => k a w'
           | (inl e, w') => (inl e, w')
           end.

Declare Scope store_scope.
Delimit Scope store_scope with store.
Notation "x <- m ;; k" := (bind m (fun x => k))
  (at level 100, m at next level, right associativity) : store_scope.
Notation "m ;;; k" := (bind m (fun _ => k))
  (at level 100, right associativity) : store_scope.
Local Open Scope store_scope.

(** *** Statements: what one SQL statement does to a set of tables *)

Definition Stmt (A : Type) : Type := Store -> error + (A * Store).

Definition ErrBadConn : error := ErrForeign "driver: bad connection".
Definition ErrTxDone : error :=
  ErrForeign "sql: transaction has already been committed or rolled back".
Definition ErrUnique : error := ErrForeign "UNIQUE constraint failed".

(** [r.db.<statement>]: runs on the committed tables.  The value is gorm's
    [.Error] (left) or what the statement read (right); the method itself
    goes on either way, as in Go. *)
Definition r_db {A} (q : Stmt A) : M (error + A) := fun w =>
  let (fails, src) := pull (storage w) in
  let w := set_storage src w in
  if fails then (inr (inl ErrBadConn), w)
  else match q (db w) with
       | inl err => (inr (inl err), w)
       | inr (a, s') => (inr (inr a), set_db s' w)
       end.

(** [txn.<statement>]: runs inside the transaction that Begin opened. *)
Definition r_txn {A} (q : Stmt A) : M (error + A) := fun w =>
  let (fails, src) := pull (storage w) in
  let w := set_storage src w in
  if fails then (inr (inl ErrBadConn), w)
  else match txn w with
       | None => (inr (inl ErrTxDone), w)
       | Some s =>
           match q s with
           | inl err => (inr (inl err), w)
           | inr (a, s') => (inr (inr a), set_txn (Some s') w)
           end
       end.

(** [r.db.Begin()]: the transaction starts from the committed tables.  The
    source does not look at the error of Begin; a Begin that fails is not
    part of this embedding. *)
Definition Begin : M unit := fun w =>
  (inr tt, log_call TxBegin (set_txn (Some (db w)) w)).

(** [txn.Rollback()]: the working copy is dropped. *)
Definition Rollback : M unit := fun w =>
  (inr tt, log_call TxRollback (set_txn None w)).

(** [txn.Commit()]: the working copy becomes the committed tables, or the
    driver fails and nothing is applied; the transaction is over either
    way. *)
Definition Commit : M (error + unit) := fun w =>
  let (fails, src) := pull (storage w) in
  let w := log_call TxCommit (set_storage src w) in
  if fails then (inr (inl ErrBadConn), set_txn None w)
  else match txn w with
       | None => (inr (inl ErrTxDone), w)
       | Some s => (inr (inr tt), set_txn None (set_db s w))
       end.

(** [uuid.NewV4()] and [newEventID()] *)
Definition NewV4 : M (error + string) := fun w =>
  let (r, src) := pull (uuid w) in
  (inr (match r with
        | Some id => inr id
        | None => inl (ErrForeign "uuid: entropy")
        end), set_uuid src w).

Definition newEventID : M (error + string) := fun w =>
  let (r, src) := pull (eventID w) in
  (inr (match r with
        | Some id => inr id
        | None => inl (ErrForeign "ulid: entropy")
        end), set_eventID src w).

(** *** The statements the store issues *)

Definition user_is (hashedUserID : string) (u : User.t) : bool :=
  String.eqb (User.HashedUserID u) hashedUserID.

Definition event_is (eventID : string) (e : Event.t) : bool :=
  String.eqb (Event.EventID e) eventID.

Definition account_is (accountID : string) (a : Account.t) : bool :=
  String.eqb (Account.AccountID a) accountID.

(** [hashed_user_id = ?] on events: a nil column matches nothing. *)
Definition event_of_user (hashedUserID : string) (e : Event.t) : bool :=
  match Event.HashedUserID e with
  | Some h => String.eqb h hashedUserID
  | None => false
  end.

Definition event_of_account (accountID : string) (e : Event.t) : bool :=
  String.eqb (Event.AccountID e) accountID.

(** [event_id > ?]: byte-wise order of the two strings. *)
Definition event_id_gt (since : string) (e : Event.t) : bool :=
  String.ltb since (Event.EventID e).

(** The Preload calls stacked on a query. *)
Inductive Preload : Type :=
| Preload_Events                             (* Preload("Events") *)
| Preload_Events_since (eventsSince : string)  (* Preload("Events", "event_id > ?", s) *)
| Preload_Events_User.                       (* Preload("Events.User") *)

Definition loads_events (p : Preload) : bool :=
  match p with Preload_Events_User => false | _ => true end.

Definition loads_user (p : Preload) : bool :=
  match p with Preload_Events_User => true | _ => false end.

Definition preload_keeps (e : Event.t) (p : Preload) : bool :=
  match p with
  | Preload_Events_since s => event_id_gt s e
  | _ => true
  end.

(** The zero value of User, what an Event carries when no row was loaded. *)
Definition zeroUser : User.t := User.mk EmptyString EmptyString.

Definition load_user (q : list Preload) (s : Store) (e : Event.t) : LoadedEvent :=
  mkLoadedEvent e
    (if existsb loads_user q then
       match Event.HashedUserID e with
       | Some h =>
           match find (user_is h) (users s) with
           | Some u => u
           | None => zeroUser
           end
       | None => zeroUser
       end
     else zeroUser).

(** The engine behind gorm.  No query of the package names an order, so a
    query that matches several rows gets them in an order of the engine's
    choice: [rowOrder] is that choice, and all that is known of it is that
    it returns the rows it was given. *)
Class Engine : Type := {
  rowOrder : list Event.t -> list Event.t;
  rowOrder_rows : forall rows, rowOrder rows ≡ₚ rows
}.

Definition load_events `{Engine} (q : list Preload) (s : Store) (a : Account.t)
  : list LoadedEvent :=
  if existsb loads_events q then
    map (load_user q s)
      (rowOrder
         (List.filter
            (fun e => event_of_account (Account.AccountID a) e && forallb (preload_keeps e) q)
            (events s)))
  else [].

(** [Find(&account, "account_id = ?", accountID)] with the preloads of [q]. *)
Definition Find_Account `{Engine} (q : list Preload) (accountID : string)
  : Stmt LoadedAccount :=
  fun s =>
    match find (account_is accountID) (accounts s) with
    | Some a => inr (mkLoadedAccount a (load_events q s a), s)
    | None => inl ErrRecordNotFound
    end.

(** [First(&user, "hashed_user_id = ?", hashedUserID)] *)
Definition First_User (hashedUserID : string) : Stmt User.t :=
  fun s =>
    match find (user_is hashedUserID) (users s) with
    | Some u => inr (u, s)
    | None => inl ErrRecordNotFound
    end.

(** [Create(&user)]: hashed_user_id is the primary key of users. *)
Definition Create_User (u : User.t) : Stmt unit :=
  fun s =>
    if existsb (user_is (User.HashedUserID u)) (users s) then inl ErrUnique
    else inr (tt, set_users (users s ++ [u]) s).

(** [Delete(&User{}, "hashed_user_id = ?", hashedUserID)] *)
Definition Delete_User (hashedUserID : string) : Stmt unit :=
  fun s =>
    inr (tt, set_users (List.filter (fun u => negb (user_is hashedUserID u)) (users s)) s).

(** [Find(&affected, "hashed_user_id = ?", hashedUserID)] *)
Definition Find_Events `{Engine} (hashedUserID : string) : Stmt (list Event.t) :=
  fun s => inr (rowOrder (List.filter (event_of_user hashedUserID) (events s)), s).

(** [Delete(&Event{}, "event_id = ?", eventID)] *)
Definition Delete_Event (eventID : string) : Stmt unit :=
  fun s =>
    inr (tt, set_events (List.filter (fun e => negb (event_is eventID e)) (events s)) s).

(** [Create(&ev)]: event_id is the primary key of events. *)
Definition Create_Event (e : Event.t) : Stmt unit :=
  fun s =>
    if existsb (event_is (Event.EventID e)) (events s) then inl ErrUnique
    else inr (tt, set_events (events s ++ [e]) s).

(** [Save(&account)].  With a primary key that is not the zero value gorm
    updates the row of that key, and inserts when no row was touched.  With
    the zero key, the empty string, gorm inserts and leaves the key column
    out of the INSERT: the call returns nil every time, and the row that
    goes in carries no account id, so that no lookup by account id finds it.
    The tables of the embedding hold rows under their keys; the row without
    a key is not among them. *)
Definition Save_Account (a : Account.t) : Stmt unit :=
  fun s =>
    if String.eqb (Account.AccountID a) EmptyString then inr (tt, s)
    else if existsb (account_is (Account.AccountID a)) (accounts s) then
      inr (tt, set_accounts
                 (map (fun b => if account_is (Account.AccountID a) b then a else b)
                    (accounts s)) s)
    else inr (tt, set_accounts (accounts s ++ [a]) s).

(** [keys.GenerateRandomString(keys.UserSaltLength)] and
    [keys.GenerateRSAKeypair(keys.RSAKeyLength)]: the environment answers. *)
Definition GenerateRandomString : M (error + string) := fun w =>
  let (r, src) := pull (randomString w) in
  (inr (match r with
        | Some v => inr v
        | None => inl (ErrForeign "keys: reading random bytes")
        end), set_randomString src w).

Definition GenerateRSAKeypair : M (error + (string * string)) := fun w =>
  let (r, src) := pull (keypair w) in
  (inr (match r with
        | Some v => inr v
        | None => inl (ErrForeign "keys: generating rsa key")
        end), set_keypair src w).

(** *** The methods of relationalDatabase *)

Section Methods.
Context {engine : Engine}.

(** The type of a wrapped public key. *)
Variable Key : Type.

(** Modelled from the spec: Account.HashUserID is declared outside the files
    at hand.  The spec gives [Hash(plaintextUserID, accountSalt)]: a pure,
    deterministic function of the plaintext identifier and the salt of the
    account. *)
Variable Hash : string -> string -> string.

Definition HashUserID (a : Account.t) (userID : string) : string :=
  Hash userID (Account.UserSalt a).

(** Account.WrapPublicKey is declared outside the files at hand as well: it
    wraps the PublicKey column, or fails. *)
Variable wrapKey : string -> error + Key.

Definition WrapPublicKey (a : Account.t) : error + Key :=
  wrapKey (Account.PublicKey a).

(** [r.encryption.Encrypt], the collaborator that encrypts the private key. *)
Variable Encrypt : string -> error + string.

Definition dquote : string := String "034"%char EmptyString.

(** The Preload calls GetAccount stacks on r.db. *)
Definition queryDB (events : bool) (eventsSince : string) : list Preload :=
  if events then
    (if negb (String.eqb eventsSince EmptyString)
     then [Preload_Events_since eventsSince]
     else [Preload_Events]) ++ [Preload_Events_User]
  else [].

Definition toEventResult (e : Event.t) : persistence.EventResult.t :=
  persistence.EventResult.mk
    (Event.HashedUserID e) (Event.EventID e) (Event.Payload e) (Event.AccountID e).

(** One turn of the loop over account.Events. *)
Definition collect
    (acc : persistence.EventsByAccountID * persistence.SecretsByUserID)
    (le : LoadedEvent)
  : persistence.EventsByAccountID * persistence.SecretsByUserID :=
  let (eventResults, userSecrets) := acc in
  let k := Event.AccountID (evt le) in
  let eventResults :=
    <[ k := default [] (eventResults !! k) ++ [toEventResult (evt le)] ]> eventResults in
  let userSecrets :=
    match Event.HashedUserID (evt le) with
    | Some h => <[ h := User.EncryptedUserSecret (User le) ]> userSecrets
    | None => userSecrets
    end in
  (eventResults, userSecrets).

Definition GetAccount (accountID : string) (events : bool) (eventsSince : string)
  : M (persistence.AccountResult.t Key) :=
  r <- r_db (Find_Account (queryDB events eventsSince) accountID) ;;
  match r with
  | inl err =>
      if IsRecordNotFoundError err then
        fail (ErrUnknownAccount
                ("relational: account id " +:+ dquote +:+ accountID +:+ dquote +:+ " unknown"))
      else
        fail (Errorf ("relational: error looking up account with id " +:+ accountID) err)
  | inr loaded =>
      match WrapPublicKey (account loaded) with
      | inl err => fail (Errorf "relational: error wrapping account public key" err)
      | inr key =>
          let '(eventResults, userSecrets) := foldl collect (∅, ∅) (Events loaded) in
          ret (persistence.AccountResult.mk
                 (Account.AccountID (account loaded))
                 (if events then None else Some key)
                 (if events then Account.EncryptedSecretKey (account loaded) else EmptyString)
                 (if Nat.eqb (size eventResults) 0 then None else Some eventResults)
                 (if Nat.eqb (size userSecrets) 0 then None else Some userSecrets))
      end
  end.

Definition migrating : string := "relational: error migrating existing events".

(** The body of [for _, ev := range affected]. *)
Fixpoint migrate (parkedHash : string) (affected : list Event.t) : M unit :=
  match affected with
  | [] => ret tt
  | ev :: rest =>
      r <- newEventID ;;
      match r with
      | inl err => (Rollback ;;; fail (Errorf migrating err))
      | inr newID =>
          r <- r_txn (Delete_Event (Event.EventID ev)) ;;
          match r with
          | inl err => (Rollback ;;; fail (Errorf migrating err))
          | inr _ =>
              let ev := Event.mk newID (Event.AccountID ev) (Some parkedHash) (Event.Payload ev) in
              r <- r_txn (Create_Event ev) ;;
              match r with
              | inl err => (Rollback ;;; fail (Errorf migrating err))
              | inr _ => migrate parkedHash rest
              end
          end
      end
  end.

(** The else branch of the lookup: a row for hashedUserID exists. *)
Definition park (a : Account.t) (hashedUserID : string) (user : User.t) : M unit :=
  r <- NewV4 ;;
  match r with
  | inl parkedIDErr => (Rollback ;;; fail (Errorf migrating parkedIDErr))
  | inr parkedID =>
      let parkedHash := HashUserID a parkedID in
      let user := User.mk parkedHash (User.EncryptedUserSecret user) in
      r <- r_txn (Create_User user) ;;
      match r with
      | inl err => (Rollback ;;; fail (Errorf migrating err))
      | inr _ =>
          r <- r_txn (Delete_User hashedUserID) ;;
          match r with
          | inl err => (Rollback ;;; fail (Errorf migrating err))
          | inr _ =>
              (* var affected []Event; the error of this Find is not looked at *)
              r <- r_db (Find_Events hashedUserID) ;;
              let affected := match r with inl _ => [] | inr evs => evs end in
              migrate parkedHash affected
          end
      end
  end.

Definition AssociateUserSecret (accountID userID encryptedUserSecret : string) : M unit :=
  r <- r_db (Find_Account [] accountID) ;;
  match r with
  | inl err =>
      fail (Errorf ("relational: error looking up account with id " +:+ accountID) err)
  | inr loaded =>
      let hashedUserID := HashUserID (account loaded) userID in
      Begin ;;;
      r <- r_db (First_User hashedUserID) ;;
      (match r with
       | inl err =>
           if IsRecordNotFoundError err then ret tt
           else fail (Errorf "relational: error looking up user" err)
       | inr user => park (account loaded) hashedUserID user
       end) ;;;
      r <- Commit ;;
      match r with
      | inl err => fail (Errorf migrating err)
      | inr _ =>
          r <- r_db (Create_User (User.mk hashedUserID encryptedUserSecret)) ;;
          match r with
          | inl err => fail err
          | inr _ => ret tt
          end
      end
  end.

Definition CreateAccount (accountID name : string) : M unit :=
  r <- GenerateRandomString ;;
  match r with
  | inl userSaltErr =>
      fail (Errorf "relational: error creating new user salt for account" userSaltErr)
  | inr userSalt =>
      r <- GenerateRSAKeypair ;;
      match r with
      | inl keyErr =>
          fail (Errorf "relational: error creating new key pair for account" keyErr)
      | inr (publicKey, privateKey) =>
          match Encrypt privateKey with
          | inl encryptErr =>
              fail (Errorf "relational: error encrypting account private key" encryptErr)
          | inr encryptedPrivateKey =>
              r <- r_db (Save_Account
                           (Account.mk accountID name publicKey encryptedPrivateKey userSalt)) ;;
              match r with
              | inl err => fail err
              | inr _ => ret tt
              end
          end
      end
  end.

End Methods.

(** *** The loop of the migration as a function of the table

    [relocate] is what the loop over [affected] does to the events table of
    the transaction when every call in it succeeds: the row with the old
    identifier goes, and a row with the new identifier and the parked hash
    comes in, unless the new identifier is taken. *)

Definition reissue (parkedHash : string) (ev : Event.t) (newID : string) : Event.t :=
  Event.mk newID (Event.AccountID ev) (Some parkedHash) (Event.Payload ev).

Fixpoint relocate (parkedHash : string) (affected : list Event.t) (ids : list string)
    (table : list Event.t) : option (list Event.t) :=
  match affected, ids with
  | [], _ => Some table
  | ev :: rest, newID :: ids' =>
      let table' := List.filter (fun e => negb (event_is (Event.EventID ev) e)) table in
      if existsb (event_is newID) table' then None
      else relocate parkedHash rest ids' (table' ++ [reissue parkedHash ev newID])
  | _ :: _, [] => None
  end.

(** The next [n] answers of a source. *)
Definition answers_from {A} (s : Src A) (n : nat) : list A :=
  map (fun i => answers s (asked s + i)%nat) (seq 0 n).

(** Primary keys: no two rows of a table share one. *)
Definition keys_unique (s : Store) : Prop :=
  NoDup (map Event.EventID (events s)) /\
  NoDup (map User.HashedUserID (users s)) /\
  NoDup (map Account.AccountID (accounts s)).

(** The rows of [table] that the loop over [affected] deletes: those whose
    identifier is the identifier of an affected event. *)
Definition moved (affected : list Event.t) (e : Event.t) : bool :=
  existsb (event_is (Event.EventID e)) affected.

(** The events GetAccount is asked for: those of the account and, when the
    cursor is not empty, with an identifier strictly after it in the
    byte-wise order of strings. *)
Definition listed (accountID eventsSince : string) (e : Event.t) : bool :=
  String.eqb (Event.AccountID e) accountID &&
  (String.eqb eventsSince EmptyString || String.ltb eventsSince (Event.EventID e)).


(** Two stores that differ at most in the salts of their accounts. *)
Definition forget_salt (a : Account.t) : Account.t :=
  Account.mk (Account.AccountID a) (Account.Name a) (Account.PublicKey a)
    (Account.EncryptedSecretKey a) EmptyString.

Definition same_but_salts (s1 s2 : Store) : Prop :=
  map forget_salt (accounts s1) = map forget_salt (accounts s2) /\
  users s1 = users s2 /\ events s1 = events s2.

End relational.

Import relational.

(** ** Worked inputs *)

Module Example.

(** An engine that answers in the order of the primary key. *)
Fixpoint insert (e : Event.t) (rows : list Event.t) : list Event.t :=
  match rows with
  | [] => [e]
  | x :: rest =>
      if String.ltb (Event.EventID x) (Event.EventID e) then x :: insert e rest
      else e :: x :: rest
  end.

Definition by_event_id (rows : list Event.t) : list Event.t := foldr insert [] rows.

Lemma by_event_id_rows rows : by_event_id rows ≡ₚ rows.
Proof.
  assert (forall e l, insert e l ≡ₚ e :: l) as Hins.
  { intros e l. induction l as [|x l IH]; simpl; [done|].
    destruct (String.ltb _ _); [|done]. rewrite IH. apply Permutation_swap. }
  induction rows as [|e rows IH]; simpl; [done|]. by rewrite Hins, IH.
Qed.

Definition engine : Engine :=
  {| rowOrder := by_event_id; rowOrder_rows := by_event_id_rows |}.

(** A hash that keeps its inputs readable. *)
Definition Hash (userID salt : string) : string := salt +:+ "-" +:+ userID.

Definition acme : Account.t := Account.mk "acme" "Acme" "PUB" "ENCRYPTED" "salt".

Definition alice : string := Hash "alice" "salt".

Definition E1 : Event.t := Event.mk "E1" "acme" (Some alice) "payload 1".
Definition E2 : Event.t := Event.mk "E2" "acme" None "payload 2".
Definition E3 : Event.t := Event.mk "E3" "acme" (Some alice) "payload 3".

(** One account; alice holds the secret S1 and wrote two of three events. *)
Definition store : Store := mkStore [acme] [User.mk alice "S1"] [E1; E2; E3].

Definition always {A} (a : A) : Src A := mkSrc (fun _ => a) 0.

Definition newIDs (n : nat) : option string :=
  Some (match n with O => "N1" | 1%nat => "N2" | _ => "N3" end).

(** No transaction is open; [fails] tells which storage calls fail, counted
    from 0; uuid.NewV4 returns "parked" and newEventID N1, N2, N3, ... *)
Definition world (fails : nat -> bool) : World :=
  mkWorld store None [] (mkSrc fails 0) (always (Some "parked")) (mkSrc newIDs 0)
    (always (Some "salt2")) (always (Some ("PUB2", "PRIV2"))).

Definition healthy : World := world (fun _ => false).

(** The fifth storage call of AssociateUserSecret on a taken hash is the
    Find that reads the affected events. *)
Definition read_of_events_fails : World := world (Nat.eqb 4).

(** The second storage call is the lookup of the user row. *)
Definition lookup_of_user_fails : World := world (Nat.eqb 1).

Definition wrapKey (pem : string) : error + string := inr ("jwk:" +:+ pem).

Definition Encrypt (plain : string) : error + string := inr ("enc:" +:+ plain).

(** A reading of the clock in October 2019, five nanoseconds into a second. *)
Definition tick : persistence.Time := persistence.mkTime 1572000000 5.

(** The store with another salt for acme, everything else alike. *)
Definition resalted : Store :=
  mkStore [Account.mk "acme" "Acme" "PUB" "ENCRYPTED" "pepper"] (users store) (events store).

(** A world in which the key pair cannot be generated. *)
Definition keygen_fails : World :=
  mkWorld store None [] (always false) (always None) (always None)
    (always (Some "salt2")) (always None).

End Example.


(** ** Further definitions: what the properties below are stated with *)

(** Each reading of the clock lies in a later millisecond than the one
    before, and none is past the largest timestamp of a ULID. *)
Fixpoint milliseconds_increase (clock : list persistence.Time) : Prop :=
  match clock with
  | [] => True
  | a :: rest =>
      (persistence.Timestamp a <= persistence.MaxTime)%Z /\
      match rest with
      | [] => True
      | b :: _ => (persistence.Timestamp a < persistence.Timestamp b)%Z
      end /\
      milliseconds_increase rest
  end.

(** The characters of the alphabet of ulid. *)
Definition alphabet : list ascii := list_ascii_of_string persistence.Encoding.

(** The secret GetAccount reports for a hashed user id: the one of its user
    row, or the empty string of the zero User when there is no row. *)
Definition secret_of (s : Store) (hashedUserID : string) : string :=
  match find (user_is hashedUserID) (users s) with
  | Some u => User.EncryptedUserSecret u
  | None => EmptyString
  end.

(** What a migration must not lose of an event: its account and payload. *)
Definition content (e : Event.t) : string * string :=
  (Event.AccountID e, Event.Payload e).

(** ** The earlier GetAccount (src/unnamed/part_001)

    The same package at an earlier state: GetAccount takes the account id
    alone, stacks no Preload on the query, and returns the errors of the
    lookup and of WrapPublicKey as they are. *)

Module part_001.
Section Methods.
Context {engine : Engine}.
Variable Key : Type.
Variable wrapKey : string -> error + Key.

Definition GetAccount (accountID : string) : M (persistence.AccountResult.t Key) :=
  (r <- r_db (Find_Account [] accountID) ;;
   match r with
   | inl err =>
       if IsRecordNotFoundError err then
         fail (ErrUnknownAccount ("account id " +:+ accountID +:+ " unknown"))
       else fail err
   | inr loaded =>
       match WrapPublicKey Key wrapKey (account loaded) with
       | inl err => fail err
       | inr key =>
           ret (persistence.AccountResult.mk
                  (Account.AccountID (account loaded)) (Some key) EmptyString None None)
       end
   end)%store.

End Methods.
End part_001.


(** ** Package router: the handlers of events and health
    (src/server/router/events.go, src/unnamed/part_002)

    A handler reads a gin context and writes one response.  Of the context
    the handlers use the value stored under contextKeyCookie, the outcome of
    BindJSON on the body and the parameters of the URL; of the response they
    set the status, a JSON body and at most one cookie. *)

Module router.

(** net/http *)
Definition StatusOK : Z := 200.
Definition StatusCreated : Z := 201.
Definition StatusNoContent : Z := 204.
Definition StatusBadRequest : Z := 400.
Definition StatusNotFound : Z := 404.
Definition StatusInternalServerError : Z := 500.
Definition StatusBadGateway : Z := 502.

Module inboundEventPayload.
Record t : Type := mk { AccountID : string; Payload : string }.
End inboundEventPayload.

Record ackResponse : Type := mkAckResponse { Ack : bool }.

Record getResponse : Type :=
  mkGetResponse { Events : persistence.EventsByAccountID }.

Record deletedQuery : Type := mkDeletedQuery { EventIDs : list string }.

(** url.Values: map[string][]string; [Get] is the first value of the key,
    or the empty string. *)
Abbreviation Values := (gmap string (list string)).

Definition Get (v : Values) (key : string) : string :=
  match v !! key with
  | Some (x :: _) => x
  | _ => EmptyString
  end.

Module getQuery.
Record t : Type := mk { params : Values; userID : string }.
End getQuery.

Definition AccountIDs (q : getQuery.t) : list string :=
  default [] (getQuery.params q !! "accountId").

Definition UserID (q : getQuery.t) : string := getQuery.userID q.

Definition Since (q : getQuery.t) : string := Get (getQuery.params q) "since".

(** errors.New("could not use user id in request context") *)
Definition errBadRequestContext : error :=
  ErrForeign "could not use user id in request context".

(** What a handler finds in its gin context. *)
Record Context : Type := mkContext {
  cookieValue : option string;
    (* c.Value(contextKeyCookie).(string): None when there is no value or it
       is no string *)
  bindEvent : error + inboundEventPayload.t;   (* c.BindJSON(&evt) *)
  bindDeleted : error + deletedQuery;          (* c.BindJSON(&query) *)
  urlQuery : Values                            (* c.Request.URL.Query() *)
}.

(** What a handler writes. *)
Inductive Body : Type :=
| NoBody
| JSONError (err : error) (status : Z)  (* newJSONError(err, status).Respond(c) *)
| JSONAck (a : ackResponse)
| JSONEvents (r : getResponse)
| JSONDeleted (d : deletedQuery).

Record Response (Cookie : Type) : Type := mkResponse {
  Status : Z;
  body : Body;
  SetCookie : list Cookie
}.
Arguments mkResponse {Cookie}.
Arguments Status {Cookie}.
Arguments body {Cookie}.
Arguments SetCookie {Cookie}.

(** The methods of persistence.Database the handlers call; a method returns
    its Go result or error and the world after the call. *)
Class Database : Type := {
  Insert : string -> string -> string -> M unit;
  Query : getQuery.t -> M persistence.EventsByAccountID;
  GetDeletedEvents : list string -> string -> M (list string);
  Purge : string -> M unit;
  CheckHealth : M unit
}.

(** [err == nil] for the result of a call. *)
Definition returned_nil {A} (r : error + A) : bool :=
  match r with inr _ => true | inl _ => false end.

Section Handlers.
Context {db : Database}.

(** The cookie type and [rt.userCookie] are declared outside the files at
    hand, and so is the type persistence.ErrUnknownUser, whose type test is
    [isUnknownUser]. *)
Variable Cookie : Type.
Variable userCookie : string -> Cookie.
Variable isUnknownUser : error -> bool.

(** A handler: the response it writes and the world after it. *)
Definition Handler : Type := Context -> World -> Response Cookie * World.

Definition respondError (err : error) (status : Z) : Response Cookie :=
  mkResponse status (JSONError err status) [].

(** [userID, _ := c.Value(contextKeyCookie).(string)] *)
Definition cookieOrEmpty (c : Context) : string :=
  match cookieValue c with Some s => s | None => EmptyString end.

Definition postEvents : Handler := fun c w =>
  let userID := cookieOrEmpty c in
  match bindEvent c with
  | inl err =>
      (respondError (Errorf "router: error decoding request payload" err)
         StatusBadRequest, w)
  | inr evt =>
      let (r, w') := Insert userID (inboundEventPayload.AccountID evt)
                       (inboundEventPayload.Payload evt) w in
      match r with
      | inl err =>
          (if isUnknownAccount err then respondError err StatusNotFound
           else if isUnknownUser err then respondError err StatusBadRequest
           else respondError (Errorf "router: error persisting event" err)
                  StatusInternalServerError, w')
      | inr _ =>
          (* the cookie is not re-issued for an anonymous event *)
          (mkResponse StatusCreated (JSONAck (mkAckResponse true))
             (if String.eqb userID EmptyString then [] else [userCookie userID]), w')
      end
  end.

Definition getEvents : Handler := fun c w =>
  match cookieValue c with
  | None => (respondError errBadRequestContext StatusInternalServerError, w)
  | Some userID =>
      let query := getQuery.mk (urlQuery c) userID in
      let (r, w') := Query query w in
      match r with
      | inl err =>
          (respondError (Errorf "router: error performing event query" err)
             StatusInternalServerError, w')
      | inr result => (mkResponse StatusOK (JSONEvents (mkGetResponse result)) [], w')
      end
  end.

Definition getDeletedEvents : Handler := fun c w =>
  let userID := cookieOrEmpty c in
  match bindDeleted c with
  | inl err =>
      (respondError (Errorf "router: error decoding request payload" err)
         StatusBadRequest, w)
  | inr query =>
      let (r, w') := GetDeletedEvents (EventIDs query) userID w in
      match r with
      | inl err =>
          (respondError (Errorf "router: error getting deleted events" err)
             StatusInternalServerError, w')
      | inr deleted =>
          (mkResponse StatusOK (JSONDeleted (mkDeletedQuery deleted)) [], w')
      end
  end.

Definition purgeEvents : Handler := fun c w =>
  let userID := cookieOrEmpty c in
  let (r, w') := Purge userID w in
  match r with
  | inl err =>
      (respondError (Errorf "router: error purging user events" err)
         StatusInternalServerError, w')
  | inr _ => (mkResponse StatusNoContent NoBody [], w')
  end.

Definition getHealth : Handler := fun c w =>
  let (r, w') := CheckHealth w in
  match r with
  | inl err =>
      (respondError
         (Errorf "router: failed checking health of connected persistence layer" err)
         StatusBadGateway, w')
  | inr _ => (mkResponse StatusNoContent NoBody [], w')
  end.

End Handlers.

End router.

(** The storage does not fail from here on. *)
Definition storage_answers (w : World) : Prop :=
  forall i, answers (storage w) (asked (storage w) + i)%nat = false.

(** ** Further worked inputs *)

Module Scenario.
#[local] Existing Instance Example.engine.

(** Two stand-ins for the first draw of math/rand under a seed: one hands
    back its seed, the other is stuck at 7. *)
Definition draw (seed : Z) : Z := seed.
Definition stuck (seed : Z) : Z := 7.

(** Two nanoseconds after [Example.tick], in the same millisecond; and the
    start of the next second. *)
Definition tock : persistence.Time := persistence.mkTime 1572000000 7.
Definition next_second : persistence.Time := persistence.mkTime 1572000001 0.

(** The world after bob, new to acme, was given the secret S2. *)
Definition with_bob : World :=
  snd (AssociateUserSecret Example.Hash "acme" "bob" "S2" Example.healthy).

(** The world after alice's secret was rotated to S2. *)
Definition rotated : World :=
  snd (AssociateUserSecret Example.Hash "acme" "alice" "S2" Example.healthy).

(** The world after the account globex was created. *)
Definition with_globex : World :=
  snd (CreateAccount Example.Encrypt "globex" "Globex" Example.healthy).

(** The store without its events and users. *)
Definition accounts_only : World :=
  set_db (mkStore (accounts Example.store) [] []) Example.healthy.

(** On alice's taken hash the eleventh storage call, number 10, is the
    insert of the new row, after Commit. *)
Definition insert_of_row_fails : World := Example.world (Nat.eqb 10).

End Scenario.


(** ** Proofs *)

(** Case analysis on whatever a hypothesis matches on next, with the
    impossible branches closed. *)
Ltac case_hyp :=
  match goal with
  | H : context [match ?x with _ => _ end] |- _ => destruct x eqn:?
  end; simplify_eq/=.

Ltac drop_units := repeat match goal with u : unit |- _ => destruct u end.

(** *** The column tests *)

Lemma user_is_eq h u : user_is h u = true <-> User.HashedUserID u = h.
Proof. unfold user_is. apply String.eqb_eq. Qed.

Lemma account_is_eq accountID a :
  account_is accountID a = true <-> Account.AccountID a = accountID.
Proof. unfold account_is. apply String.eqb_eq. Qed.

Lemma event_of_user_eq h e :
  event_of_user h e = true <-> Event.HashedUserID e = Some h.
Proof.
  unfold event_of_user. destruct (Event.HashedUserID e) as [h'|]; [|done].
  rewrite String.eqb_eq. split; congruence.
Qed.

Lemma ltb_irrefl (s : string) : String.ltb s s = false.
Proof.
  unfold String.ltb. pose proof (String.compare_antisym s s) as H.
  destruct (String.compare s s); simpl in H; congruence.
Qed.

(** *** Lists and sources *)

Lemma answers_from_S {A} (s : Src A) n :
  answers_from s (S n) = answers s (asked s) :: answers_from (snd (pull s)) n.
Proof.
  unfold answers_from. simpl. rewrite Nat.add_0_r. f_equal.
  rewrite <- seq_shift, map_map. apply map_ext. intros i. f_equal. lia.
Qed.

Lemma filter_filter_andb {A} (f g : A -> bool) (l : list A) :
  List.filter f (List.filter g l) = List.filter (fun x => g x && f x) l.
Proof.
  induction l as [|x l IH]; simpl; [done|].
  destruct (g x); simpl; [destruct (f x)|]; by rewrite ?IH.
Qed.

Lemma filter_split_permutation {A} (p : A -> bool) (l : list A) :
  Permutation l (List.filter (fun x => negb (p x)) l ++ List.filter p l).
Proof.
  induction l as [|x l IH]; simpl; [done|].
  destruct (p x); simpl.
  - rewrite <- Permutation_middle. by constructor.
  - by constructor.
Qed.


Lemma NoDup_map_filter {A B} (f : A -> B) (p : A -> bool) (l : list A) :
  NoDup (map f l) -> NoDup (map f (List.filter p l)).
Proof.
  induction l as [|x l IH]; simpl; [done|].
  rewrite NoDup_cons. intros [Hx Hnd].
  destruct (p x); simpl; [|by apply IH].
  apply NoDup_cons. split; [|by apply IH].
  rewrite list_elem_of_In in *. intros Hin. apply Hx.
  apply in_map_iff in Hin as (y & <- & Hy). apply filter_In in Hy as [Hy _].
  by apply in_map.
Qed.

Lemma NoDup_map_eq {A B} (f : A -> B) (l : list A) x y :
  NoDup (map f l) -> In x l -> In y l -> f x = f y -> x = y.
Proof.
  induction l as [|z l IH]; simpl; [done|].
  rewrite NoDup_cons, list_elem_of_In. intros [Hz Hnd] [->|Hx] [->|Hy] Hf; auto.
  - exfalso. apply Hz. rewrite Hf. by apply in_map.
  - exfalso. apply Hz. rewrite <- Hf. by apply in_map.
Qed.

Lemma NoDup_map_snoc {A B} (f : A -> B) (l : list A) (x : A) :
  NoDup (map f l) -> ~ In (f x) (map f l) -> NoDup (map f (l ++ [x])).
Proof.
  intros Hnd Hx. rewrite map_app. simpl. apply NoDup_app. split; [done|].
  split; [|apply NoDup_singleton].
  intros y Hy Hy'. apply list_elem_of_In in Hy. apply list_elem_of_In in Hy' as [<-|[]].
  done.
Qed.

Lemma no_user_row h (l : list User.t) :
  existsb (user_is h) l = false -> ~ In h (map User.HashedUserID l).
Proof.
  intros Hex Hin. apply in_map_iff in Hin as (u & Hu & Hin).
  apply not_true_iff_false in Hex. apply Hex. apply existsb_exists.
  exists u. split; [done|]. by apply user_is_eq.
Qed.

(** *** Event identifiers *)

Section Identifiers.
Import persistence.
Local Open Scope Z_scope.

(** The alphabet is in ascending byte order. *)
Lemma digit_compare a b :
  0 <= a < 32 -> 0 <= b < 32 ->
  Ascii.compare (digit a) (digit b) = Z.compare a b.
Proof.
  intros Ha Hb.
  assert (forallb (fun x => forallb (fun y =>
            match Ascii.compare (digit (Z.of_nat x)) (digit (Z.of_nat y)),
                  Nat.compare x y with
            | Lt, Lt | Eq, Eq | Gt, Gt => true
            | _, _ => false
            end) (seq 0 32)) (seq 0 32) = true) as H by (vm_compute; reflexivity).
  rewrite forallb_forall in H.
  specialize (H (Z.to_nat a)). rewrite forallb_forall in H.
  specialize (H ltac:(apply in_seq; lia) (Z.to_nat b) ltac:(apply in_seq; lia)).
  rewrite !Z2Nat.id in H by lia.
  rewrite Z2Nat.inj_compare in H by lia.
  destruct (Ascii.compare _ _), (Z.compare _ _); done.
Qed.

(** Base 32 at a fixed width keeps the order of the numbers. *)
Lemma base32_compare n : forall v1 v2 acc1 acc2,
  0 <= v1 < 32 ^ Z.of_nat n -> 0 <= v2 < 32 ^ Z.of_nat n ->
  String.compare (base32 n v1 acc1) (base32 n v2 acc2) =
    match Z.compare v1 v2 with
    | Eq => String.compare acc1 acc2
    | c => c
    end.
Proof.
  induction n as [|n IH]; intros v1 v2 acc1 acc2 H1 H2.
  - simpl in *. assert (v1 = 0) as -> by lia. assert (v2 = 0) as -> by lia. done.
  - rewrite Nat2Z.inj_succ, Z.pow_succ_r in H1, H2 by lia.
    simpl. rewrite IH by (split; [apply Z.div_pos; lia | apply Z.div_lt_upper_bound; lia]).
    pose proof (Z.div_mod v1 32 ltac:(lia)) as E1.
    pose proof (Z.div_mod v2 32 ltac:(lia)) as E2.
    pose proof (Z.mod_pos_bound v1 32 ltac:(lia)) as B1.
    pose proof (Z.mod_pos_bound v2 32 ltac:(lia)) as B2.
    destruct (Z.compare_spec (v1 / 32) (v2 / 32)) as [Hq|Hq|Hq].
    + simpl. rewrite digit_compare by lia.
      assert (Z.compare v1 v2 = Z.compare (v1 mod 32) (v2 mod 32)) as ->.
      { destruct (Z.compare_spec (v1 mod 32) (v2 mod 32));
          [apply Z.compare_eq_iff | apply Z.compare_lt_iff | apply Z.compare_gt_iff]; lia. }
      done.
    + assert (Z.compare v1 v2 = Lt) as -> by (apply Z.compare_lt_iff; lia). done.
    + assert (Z.compare v1 v2 = Gt) as -> by (apply Z.compare_gt_iff; lia). done.
Qed.

Lemma Timestamp_nonneg (t : Time) : 0 <= Timestamp t.
Proof. unfold Timestamp, wrap_uint64. apply Z.mod_pos_bound. lia. Qed.

Variable mathrand : Z -> Z.

Lemma NewEventID_returns (t : Time) :
  Timestamp t <= MaxTime ->
  NewEventID mathrand t =
    inr (ULID_String (mkULID (Timestamp t) (mathrand (UnixNano t) mod 2 ^ 80))).
Proof.
  intros Hle. unfold NewEventID, ulid_New.
  destruct (Z.ltb_spec MaxTime (Timestamp t)); [lia|done].
Qed.

(** Calls in different milliseconds come out in call order. *)
Lemma NewEventID_increases_across_milliseconds (t1 t2 : Time) :
  Timestamp t1 < Timestamp t2 -> Timestamp t2 <= MaxTime ->
  strictly_increasing (NewEventIDs mathrand [t1; t2]).
Proof.
  intros Hlt Hmax. unfold NewEventIDs. cbn [map].
  rewrite !NewEventID_returns by lia. cbn [strictly_increasing]. split; [|done].
  unfold String.ltb, ULID_String. cbn [ms entropy].
  pose proof (Timestamp_nonneg t1). unfold MaxTime in Hmax.
  rewrite base32_compare by (change (32 ^ Z.of_nat 10) with 1125899906842624; lia).
  by apply Z.compare_lt_iff in Hlt as ->.
Qed.

(** X2: within one millisecond the order of two identifiers is the order of
    the two draws of entropy, whatever the order of the calls. *)
Lemma NewEventID_within_a_millisecond (t1 t2 : Time) :
  Timestamp t1 = Timestamp t2 -> Timestamp t2 <= MaxTime ->
  strictly_increasing (NewEventIDs mathrand [t1; t2]) <->
  mathrand (UnixNano t1) mod 2 ^ 80 < mathrand (UnixNano t2) mod 2 ^ 80.
Proof.
  intros Heq Hmax. unfold NewEventIDs. cbn [map].
  rewrite !NewEventID_returns by lia. cbn [strictly_increasing].
  unfold String.ltb, ULID_String. cbn [ms entropy].
  pose proof (Timestamp_nonneg t2). unfold MaxTime in Hmax.
  rewrite base32_compare by (change (32 ^ Z.of_nat 10) with 1125899906842624; lia).
  rewrite Heq, Z.compare_refl.
  pose proof (Z.mod_pos_bound (mathrand (UnixNano t1)) (2 ^ 80) ltac:(lia)) as B1.
  pose proof (Z.mod_pos_bound (mathrand (UnixNano t2)) (2 ^ 80) ltac:(lia)) as B2.
  rewrite base32_compare by (change (32 ^ Z.of_nat 16) with (2 ^ 80); lia).
  destruct (Z.compare_spec (mathrand (UnixNano t1) mod 2 ^ 80)
              (mathrand (UnixNano t2) mod 2 ^ 80)) as [E|L|G]; simpl.
  - split; [intros [? _]; done | lia].
  - split; [done | intros _; done].
  - split; [intros [? _]; done | lia].
Qed.

(** Two calls that read the same clock value never come out increasing:
    either both fail or both return one and the same identifier. *)
Lemma NewEventID_same_reading (t : Time) :
  ~ strictly_increasing (NewEventIDs mathrand [t; t]).
Proof.
  unfold NewEventIDs. simpl. destruct (NewEventID mathrand t) as [err|id]; [tauto|].
  rewrite ltb_irrefl. intros [? _]. done.
Qed.

(** C3: the identifiers of a sequence of calls are pairwise distinct and
    strictly increasing in call order, also within one clock tick.  The code
    does not deliver this: NewEventID builds its monotonic entropy anew on
    every call and seeds it with the clock reading, so two calls that read
    the same clock value return the same identifier.  At the reading [tick],
    taken twice, both calls succeed, return one identifier, and the pair is
    not strictly increasing. *)
Theorem NewEventID_repeats_within_a_reading :
  clock_ordered [Example.tick; Example.tick] /\
  (exists id, NewEventIDs mathrand [Example.tick; Example.tick] = [inr id; inr id]) /\
  ~ strictly_increasing (NewEventIDs mathrand [Example.tick; Example.tick]).
Proof.
  split; [|split].
  - simpl. split; [|done]. right. done.
  - unfold NewEventIDs. cbn [map].
    rewrite NewEventID_returns by (vm_compute; discriminate).
    eexists. reflexivity.
  - apply NewEventID_same_reading.
Qed.

End Identifiers.

(** *** The loop of the migration *)

Lemma migrate_success parkedHash affected : forall w w' s,
  migrate parkedHash affected w = (inr tt, w') ->
  txn w = Some s ->
  exists ids table,
    map Some ids = answers_from (eventID w) (length affected) /\
    relocate parkedHash affected ids (events s) = Some table /\
    txn w' = Some (set_events table s) /\
    db w' = db w /\ journal w' = journal w.
Proof.
  induction affected as [|ev rest IH]; intros w w' s H Ht.
  - simpl in H. unfold ret in H. simplify_eq. exists [], (events s).
    destruct s; simpl. done.
  - simpl in H.
    unfold bind, newEventID, r_txn, Rollback, fail, pull, Delete_Event, Create_Event in H.
    destruct w as [d t j st uu evs rs kp]. simpl in *. subst t.
    repeat case_hyp.
    match goal with H : migrate _ _ _ = _ |- _ => eapply IH in H; [|simpl; reflexivity] end.
    simpl in *. destruct H as (ids & table & Hids & Hrel & Htx & Hdb & Hj).
    match goal with H : answers evs _ = Some ?x |- _ => exists (x :: ids), table end.
    rewrite answers_from_S. simpl.
    match goal with H : existsb _ _ = false |- _ => rewrite H end.
    split; [rewrite Hids; f_equal; done|].
    split; [exact Hrel|].
    split; [rewrite Htx; destruct s; done|done].
Qed.

(** Every failure inside the loop rolls the transaction back. *)
Lemma migrate_failure parkedHash affected : forall w w' e,
  migrate parkedHash affected w = (inl e, w') ->
  db w' = db w /\ txn w' = None /\ journal w' = journal w ++ [TxRollback].
Proof.
  induction affected as [|ev rest IH]; intros w w' e H.
  - simpl in H. unfold ret in H. simplify_eq.
  - simpl in H.
    unfold bind, newEventID, r_txn, Rollback, fail, pull in H.
    destruct w as [d t j st uu evs rs kp]. simpl in *.
    repeat case_hyp; try done.
    all: match goal with H : migrate _ _ _ = _ |- _ => apply IH in H end.
    all: simpl in *; done.
Qed.

(** With unique identifiers the table after the loop is known exactly: the
    rows that were not affected, in their order, then the reissued rows. *)
Lemma relocate_exact parkedHash affected : forall ids table final,
  NoDup (map Event.EventID table) ->
  NoDup (map Event.EventID affected) ->
  incl affected table ->
  relocate parkedHash affected ids table = Some final ->
  final = List.filter (fun e => negb (moved affected e)) table
            ++ zip_with (reissue parkedHash) affected ids /\
  length affected <= length ids /\
  NoDup (map Event.EventID final).
Proof.
  induction affected as [|ev rest IH]; intros ids table final Hnd Hnda Hincl H.
  - simpl in H. simplify_eq. simpl. split; [|split; [lia|done]].
    rewrite app_nil_r. clear. induction final; simpl; [done|]. by f_equal.
  - destruct ids as [|newID ids']; simpl in H; [done|].
    destruct (existsb _ _) eqn:Hfresh in H; [done|].
    simpl in Hnda. apply NoDup_cons in Hnda as [Hev Hnda]. rewrite list_elem_of_In in Hev.
    assert (forall r, In r rest -> event_is (Event.EventID ev) r = false) as Hrest.
    { intros r Hr. apply not_true_is_false. intros Heq.
      apply Hev. apply in_map_iff. exists r. split; [|done].
      unfold event_is in Heq. by apply String.eqb_eq in Heq. }
    apply IH in H as (-> & Hlen & Hfinal); [| |done|].
    + split; [|split; [simpl; lia|done]].
      rewrite List.filter_app, filter_filter_andb. simpl.
      assert (moved rest (reissue parkedHash ev newID) = false) as ->.
      { unfold moved. simpl. apply not_true_is_false. intros Hex.
        apply existsb_exists in Hex as (r & Hr & Hid).
        apply not_true_iff_false in Hfresh. apply Hfresh.
        apply existsb_exists. exists r. split; [|done].
        apply filter_In. split; [apply Hincl; by right|].
        by rewrite Hrest. }
      simpl. rewrite <- app_assoc. simpl. f_equal.
      apply filter_ext. intros e. unfold moved. simpl.
      rewrite negb_orb. f_equal. f_equal. unfold event_is. apply String.eqb_sym.
    + rewrite map_app. simpl. apply NoDup_app. split; [by apply NoDup_map_filter|].
      split; [|apply NoDup_singleton].
      intros x Hx Hx'. apply list_elem_of_In in Hx. apply list_elem_of_In in Hx' as [<-|[]].
      apply in_map_iff in Hx as (r & Hid & Hr).
      apply not_true_iff_false in Hfresh. apply Hfresh.
      apply existsb_exists. exists r. split; [done|].
      unfold event_is. by apply String.eqb_eq.
    + intros r Hr. apply in_or_app. left. apply filter_In. split; [apply Hincl; by right|].
      by rewrite Hrest.
Qed.

(** The order of the engine changes neither which rows a query returns nor
    which rows the loop deletes. *)
Lemma rowOrder_In `{Engine} rows e : In e (rowOrder rows) <-> In e rows.
Proof.
  split; apply Permutation_in; [apply rowOrder_rows|].
  symmetry. apply rowOrder_rows.
Qed.

Lemma rowOrder_NoDup `{Engine} rows :
  NoDup (map Event.EventID rows) -> NoDup (map Event.EventID (rowOrder rows)).
Proof.
  intros Hnd.
  assert (map Event.EventID (rowOrder rows) ≡ₚ map Event.EventID rows) as ->
    by apply Permutation_map, rowOrder_rows.
  done.
Qed.

Lemma moved_rowOrder `{Engine} rows e : moved (rowOrder rows) e = moved rows e.
Proof.
  unfold moved. apply eq_true_iff_eq. rewrite !existsb_exists.
  split; intros (r & Hr & Hid); exists r; (split; [|done]); by apply rowOrder_In.
Qed.

Lemma moved_of_user h table e :
  NoDup (map Event.EventID table) -> In e table ->
  moved (List.filter (event_of_user h) table) e = event_of_user h e.
Proof.
  intros Hnd He. unfold moved.
  destruct (event_of_user h e) eqn:Hu.
  - apply existsb_exists. exists e. split; [by apply filter_In|].
    unfold event_is. apply String.eqb_refl.
  - apply not_true_is_false. intros Hex.
    apply existsb_exists in Hex as (r & Hr & Hid).
    apply filter_In in Hr as [Hr Hru].
    unfold event_is in Hid. apply String.eqb_eq in Hid.
    assert (r = e) as -> by (eapply NoDup_map_eq; eauto).
    congruence.
Qed.

(** *** AssociateUserSecret *)


Section Rotation.
Context {engine : Engine}.
Variable Hash : string -> string -> string.

(** What a call that returns nil has done.  Storage calls are counted from
    the start of the call: on a taken hash the fifth one, number 4, is the
    Find that reads the affected events, and its error is not looked at. *)
Lemma AssociateUserSecret_success accountID userID secret w w' :
  AssociateUserSecret Hash accountID userID secret w = (inr tt, w') ->
  exists a, find (account_is accountID) (accounts (db w)) = Some a /\
  let h := HashUserID Hash a userID in
  match find (user_is h) (users (db w)) with
  | None => db w' = set_users (users (db w) ++ [User.mk h secret]) (db w)
  | Some user =>
      exists parkedID ids affected table,
        answers (uuid w) (asked (uuid w)) = Some parkedID /\
        existsb (user_is (HashUserID Hash a parkedID)) (users (db w)) = false /\
        affected = (if answers (storage w) (4 + asked (storage w))%nat then []
                    else rowOrder (List.filter (event_of_user h) (events (db w)))) /\
        map Some ids = answers_from (eventID w) (length affected) /\
        relocate (HashUserID Hash a parkedID) affected ids (events (db w)) = Some table /\
        db w' = mkStore (accounts (db w))
                  (List.filter (fun u => negb (user_is h u))
                     (users (db w)
                        ++ [User.mk (HashUserID Hash a parkedID) (User.EncryptedUserSecret user)])
                   ++ [User.mk h secret])
                  table
  end.
Proof.
  intros H.
  unfold AssociateUserSecret, park, bind, r_db, r_txn, Begin, Commit, NewV4, Rollback,
    fail, ret, pull in H.
  destruct w as [d t j st uu evs rs kp]. simpl in *.
  unfold Find_Account, First_User, Find_Events in H.
  repeat case_hyp.
  - (* no row for the hash *)
    eexists; split; [done|]. simpl.
    match goal with H : find (user_is _) _ = None |- _ => rewrite H end.
    unfold Create_User in *. repeat case_hyp. done.
  - (* the row is parked; the read of the events failed *)
    unfold ret in *. simplify_eq/=.
    eexists; split; [done|]. simpl.
    match goal with H : find (user_is _) _ = Some _ |- _ => rewrite H end.
    match goal with H : answers st (S (S (S (S _)))) = _ |- _ => rewrite H end.
    unfold Create_User in *. repeat case_hyp.
    eexists _, [], [], _. simpl. repeat split; done.
  - (* the row is parked and the events are relocated *)
    drop_units.
    match goal with H : migrate _ _ _ = _ |- _ =>
      eapply migrate_success in H; [|simpl; reflexivity];
      destruct H as (ids & table & Hids & Hrel & Htx & Hdb & Hj) end.
    simpl in *.
    eexists; split; [done|]. simpl.
    match goal with H : find (user_is _) _ = Some _ |- _ => rewrite H end.
    match goal with H : answers st (S (S (S (S _)))) = _ |- _ => rewrite H end.
    unfold Create_User in *. repeat case_hyp.
    eexists _, ids, _, table. repeat split; done.
Qed.


(** X11: the rotation when the read of the affected events succeeds: the
    old row sits under the parked hash, every event of the old hash sits
    under the parked hash with an identifier newEventID returned during the
    call, no event is left under the old hash, and the new row holds the new
    secret. *)
Lemma AssociateUserSecret_rotation accountID userID secret w w' a user :
  AssociateUserSecret Hash accountID userID secret w = (inr tt, w') ->
  find (account_is accountID) (accounts (db w)) = Some a ->
  find (user_is (HashUserID Hash a userID)) (users (db w)) = Some user ->
  NoDup (map Event.EventID (events (db w))) ->
  answers (storage w) (4 + asked (storage w))%nat = false ->
  exists parkedID ids,
    let h := HashUserID Hash a userID in
    let parkedHash := HashUserID Hash a parkedID in
    let affected := rowOrder (List.filter (event_of_user h) (events (db w))) in
    answers (uuid w) (asked (uuid w)) = Some parkedID /\
    parkedHash <> h /\
    map Some ids = answers_from (eventID w) (length affected) /\
    accounts (db w') = accounts (db w) /\
    users (db w') =
      List.filter (fun u => negb (user_is h u)) (users (db w))
        ++ [User.mk parkedHash (User.EncryptedUserSecret user); User.mk h secret] /\
    events (db w') =
      List.filter (fun e => negb (event_of_user h e)) (events (db w))
        ++ zip_with (reissue parkedHash) affected ids /\
    (forall e, In e (events (db w')) -> Event.HashedUserID e <> Some h).
Proof.
  intros H Ha Hu Hnd Hread.
  apply AssociateUserSecret_success in H as (a' & Ha' & H).
  rewrite Ha in Ha'. simplify_eq. simpl in H. rewrite Hu in H.
  destruct H as (parkedID & ids & affected & table & Huuid & Hfresh & -> & Hids & Hrel & ->).
  simpl in Hread. rewrite Hread in *.
  exists parkedID, ids. simpl.
  assert (HashUserID Hash a' parkedID <> HashUserID Hash a' userID) as Hne.
  { intros Heq. apply not_true_iff_false in Hfresh. apply Hfresh.
    apply existsb_exists. exists user. rewrite Heq.
    apply find_some in Hu. done. }
  apply relocate_exact in Hrel as (-> & Hlen & _); [|done| |].
  - assert (List.filter
              (fun e => negb (moved (rowOrder
                                       (List.filter (event_of_user (HashUserID Hash a' userID))
                                          (events (db w)))) e))
              (events (db w))
            = List.filter (fun e => negb (event_of_user (HashUserID Hash a' userID) e))
                (events (db w))) as ->.
    { apply filter_ext_in. intros e He. f_equal. rewrite moved_rowOrder.
      by apply moved_of_user. }
    repeat split; try done.
    + rewrite List.filter_app. simpl.
      assert (user_is (HashUserID Hash a' userID)
                (User.mk (HashUserID Hash a' parkedID) (User.EncryptedUserSecret user))
              = false) as ->.
      { apply not_true_is_false. rewrite user_is_eq. done. }
      simpl. by rewrite <- app_assoc.
    + intros e He Hbound. apply in_app_or in He as [He|He].
      * apply filter_In in He as [_ He]. apply event_of_user_eq in Hbound.
        rewrite Hbound in He. done.
      * apply list_elem_of_In, elem_of_lookup_zip_with in He as (i & ev & id & -> & _ & _).
        simpl in Hbound. congruence.
  - by apply rowOrder_NoDup, NoDup_map_filter.
  - intros e He. rewrite rowOrder_In in He. by apply filter_In in He as [? _].
Qed.

(** The rotation when the read of the affected events fails and the call
    still returns nil: the rows of users are re-pointed as above, and the
    events table is what it was, with every event of the old hash still
    bound to it. *)
Lemma AssociateUserSecret_read_failure accountID userID secret w w' a user :
  AssociateUserSecret Hash accountID userID secret w = (inr tt, w') ->
  find (account_is accountID) (accounts (db w)) = Some a ->
  find (user_is (HashUserID Hash a userID)) (users (db w)) = Some user ->
  answers (storage w) (4 + asked (storage w))%nat = true ->
  events (db w') = events (db w) /\
  In (User.mk (HashUserID Hash a userID) secret) (users (db w')).
Proof.
  intros H Ha Hu Hread.
  apply AssociateUserSecret_success in H as (a' & Ha' & H).
  rewrite Ha in Ha'. simplify_eq. simpl in H. rewrite Hu in H.
  destruct H as (parkedID & ids & affected & table & _ & _ & -> & _ & Hrel & ->).
  simpl in Hread. rewrite Hread in Hrel. simpl in Hrel. simplify_eq. simpl.
  split; [done|]. apply in_or_app. right. by left.
Qed.

(** X13: primary keys stay unique across a call that returns nil: no two
    events, users or accounts share a key afterwards if none did before. *)
Lemma AssociateUserSecret_keeps_keys_unique accountID userID secret w w' :
  keys_unique (db w) ->
  AssociateUserSecret Hash accountID userID secret w = (inr tt, w') ->
  keys_unique (db w').
Proof.
  intros (Hev & Hus & Hacc) H.
  apply AssociateUserSecret_success in H as (a & Ha & H). simpl in H.
  destruct (find (user_is _) _) as [user|] eqn:Hu.
  - destruct H as (parkedID & ids & affected & table & _ & Hfresh & Haff & _ & Hrel & ->).
    split; [|split]; simpl; [| |done].
    + destruct (answers _ _); subst affected.
      * simpl in Hrel. by simplify_eq.
      * apply relocate_exact in Hrel as (_ & _ & Hnd); [done|done| |].
        -- by apply rowOrder_NoDup, NoDup_map_filter.
        -- intros e He. rewrite rowOrder_In in He. by apply filter_In in He as [? _].
    + apply NoDup_map_snoc.
      * apply NoDup_map_filter, NoDup_map_snoc; [done|]. by apply no_user_row.
      * simpl. intros Hin. apply in_map_iff in Hin as (u & Hid & Hin).
        apply filter_In in Hin as [_ Hne]. apply negb_true_iff in Hne.
        apply user_is_eq in Hid. congruence.
  - rewrite H. split; [|split]; simpl; [done| |done].
    apply NoDup_map_snoc; [done|]. simpl. apply no_user_row.
    apply not_true_is_false. intros Hex. apply existsb_exists in Hex as (u & Hin & Hid).
    eapply find_none in Hu; [|exact Hin]. congruence.
Qed.

(** C8: when no user row exists for the hash of the plaintext identifier
    under the salt of the account, a call that returns nil has added exactly
    one user row, holding that hash and the secret of the caller, and has
    left every event row and every account row as it was. *)
Theorem AssociateUserSecret_first_association accountID userID secret w w' a :
  AssociateUserSecret Hash accountID userID secret w = (inr tt, w') ->
  find (account_is accountID) (accounts (db w)) = Some a ->
  find (user_is (Hash userID (Account.UserSalt a))) (users (db w)) = None ->
  users (db w') = users (db w) ++ [User.mk (Hash userID (Account.UserSalt a)) secret] /\
  events (db w') = events (db w) /\
  accounts (db w') = accounts (db w).
Proof.
  intros H Ha Hu.
  apply AssociateUserSecret_success in H as (a' & Ha' & H).
  rewrite Ha in Ha'. simplify_eq. simpl in H. unfold HashUserID in H.
  rewrite Hu in H. rewrite H. done.
Qed.


(** C4: an account id without a row makes every operation return the typed
    UnknownAccount error.  AssociateUserSecret does not: when the lookup
    reaches the storage and finds no row, it returns the text built by
    fmt.Errorf around gorm's record-not-found error, which the type test for
    ErrUnknownAccount rejects. *)
Theorem AssociateUserSecret_unknown_account_is_generic accountID userID secret w :
  answers (storage w) (asked (storage w)) = false ->
  find (account_is accountID) (accounts (db w)) = None ->
  exists e,
    fst (AssociateUserSecret Hash accountID userID secret w) = inl e /\
    e = Errorf ("relational: error looking up account with id " +:+ accountID)
          ErrRecordNotFound /\
    isUnknownAccount e = false.
Proof.
  intros Hst Hnone.
  unfold AssociateUserSecret, bind, r_db, pull, Find_Account, fail. simpl.
  rewrite Hst, Hnone. simpl. eexists. split; [reflexivity|]. split; reflexivity.
Qed.

End Rotation.

Section AtWorkedInputs.
#[local] Existing Instance Example.engine.

(** C1: on a taken hash, a call that returns nil has moved every event of the
    old hash to the parked hash.  The code misses this when the Find that
    reads the affected events fails: its error is dropped, the loop runs
    over no event, the transaction commits and the call returns nil.  Here
    alice's row is parked and S2 takes her hash, while E1 and E3 stay bound
    to that hash. *)
Theorem rotation_keeps_events_when_their_read_fails :
  let '(r, w') := AssociateUserSecret Example.Hash "acme" "alice" "S2"
                    Example.read_of_events_fails in
  r = inr tt /\
  users (db w') = [User.mk (Example.Hash "parked" "salt") "S1"; User.mk Example.alice "S2"] /\
  events (db w') = [Example.E1; Example.E2; Example.E3] /\
  Event.HashedUserID Example.E1 = Some Example.alice /\
  journal w' = [TxBegin; TxCommit].
Proof. vm_compute. repeat split. Qed.

(** C2: every error path attempts a rollback of the open transaction before
    the call returns.  The code misses the path on which the lookup of the
    user row fails with an error other than record-not-found: the call
    returns the error after Begin, with no Rollback and no Commit, and the
    transaction stays open. *)
Theorem lookup_error_leaves_transaction_open :
  let '(r, w') := AssociateUserSecret Example.Hash "acme" "alice" "S2"
                    Example.lookup_of_user_fails in
  r = inl (ErrorString "relational: error looking up user: driver: bad connection") /\
  journal w' = [TxBegin] /\
  txn w' = Some Example.store /\
  db w' = Example.store.
Proof. vm_compute. repeat split. Qed.

End AtWorkedInputs.

(** *** GetAccount *)

(** The loop over account.Events, when every event has the account id [k]:
    one key, and under it the results in the order of the events. *)
Lemma collect_events k (les : list LoadedEvent) :
  (forall le, In le les -> Event.AccountID (evt le) = k) ->
  forall m u,
    fst (foldl collect (m, u) les) =
      match les with
      | [] => m
      | _ :: _ =>
          <[ k := default [] (m !! k) ++ map (fun le => toEventResult (evt le)) les ]> m
      end.
Proof.
  induction les as [|le rest IH]; intros Hk m u; [done|].
  simpl. rewrite (Hk le) by (by left).
  destruct (Event.HashedUserID (evt le)).
  all: rewrite IH by (intros; apply Hk; by right).
  all: destruct rest as [|le' rest]; [done|].
  all: rewrite lookup_insert_eq; simpl; rewrite insert_insert_eq, <- app_assoc; done.
Qed.

Lemma load_events_listed `{Engine} accountID eventsSince s a :
  Account.AccountID a = accountID ->
  map evt (load_events (queryDB true eventsSince) s a) =
  rowOrder (List.filter (listed accountID eventsSince) (events s)).
Proof.
  intros <-. unfold load_events, queryDB, listed.
  destruct (String.eqb eventsSince EmptyString); simpl.
  all: rewrite map_map; simpl; rewrite map_id; f_equal.
  all: apply filter_ext; intros e; unfold event_of_account, event_id_gt.
  all: by rewrite ?andb_true_r.
Qed.

Lemma find_forget_salt accountID (l1 : list Account.t) : forall l2,
  map forget_salt l1 = map forget_salt l2 ->
  match find (account_is accountID) l1, find (account_is accountID) l2 with
  | Some a1, Some a2 => forget_salt a1 = forget_salt a2
  | None, None => True
  | _, _ => False
  end.
Proof.
  induction l1 as [|a1 l1 IH]; intros [|a2 l2] Hmap; try done.
  simpl in Hmap. injection Hmap as Hid Hname Hpub Hkey Hmap. simpl.
  assert (account_is accountID a1 = account_is accountID a2) as ->
    by (unfold account_is; by rewrite Hid).
  destruct (account_is accountID a2).
  - unfold forget_salt. congruence.
  - by apply IH.
Qed.

Section Accounts.
Context {engine : Engine}.
Variable Key : Type.
Variable wrapKey : string -> error + Key.

(** What a call that returns a result has read. *)
Lemma GetAccount_success accountID events eventsSince w r w' :
  GetAccount Key wrapKey accountID events eventsSince w = (inr r, w') ->
  exists a key,
    find (account_is accountID) (accounts (db w)) = Some a /\
    wrapKey (Account.PublicKey a) = inr key /\
    let loaded := load_events (queryDB events eventsSince) (db w) a in
    let maps := foldl collect (∅, ∅) loaded in
    r = persistence.AccountResult.mk (Account.AccountID a)
          (if events then None else Some key)
          (if events then Account.EncryptedSecretKey a else EmptyString)
          (if Nat.eqb (size (fst maps)) 0 then None else Some (fst maps))
          (if Nat.eqb (size (snd maps)) 0 then None else Some (snd maps)).
Proof.
  intros H.
  unfold GetAccount, bind, r_db, fail, ret, pull, Find_Account, WrapPublicKey in H.
  destruct w as [d t j st uu evs rs kp]. simpl in *.
  repeat case_hyp.
  eexists _, _. split; [done|]. split; [done|]. simpl.
  match goal with H : foldl _ _ _ = _ |- _ => rewrite H end. done.
Qed.

(** GetAccount returns a result when the storage answers, the account has a
    row and its key can be wrapped. *)
Lemma GetAccount_returns accountID events eventsSince w a key :
  answers (storage w) (asked (storage w)) = false ->
  find (account_is accountID) (accounts (db w)) = Some a ->
  wrapKey (Account.PublicKey a) = inr key ->
  exists r, fst (GetAccount Key wrapKey accountID events eventsSince w) = inr r.
Proof.
  intros Hst Ha Hkey.
  unfold GetAccount, bind, r_db, pull, Find_Account, WrapPublicKey. simpl.
  rewrite Hst, Ha. simpl. rewrite Hkey. destruct (foldl _ _ _). simpl. eauto.
Qed.

(** GetAccount types the error of an account id without a row. *)
Lemma GetAccount_unknown_account accountID events eventsSince w :
  answers (storage w) (asked (storage w)) = false ->
  find (account_is accountID) (accounts (db w)) = None ->
  exists msg,
    fst (GetAccount Key wrapKey accountID events eventsSince w) = inl (ErrUnknownAccount msg).
Proof.
  intros Hst Hnone. unfold GetAccount, bind, r_db, pull, Find_Account. simpl.
  rewrite Hst, Hnone. simpl. eauto.
Qed.

(** C7: with events requested, the result lists exactly the events of the
    account whose identifier is strictly greater than a non-empty cursor,
    and all events of the account when the cursor is empty.  The events map
    is nil when there is no such event; otherwise it has the one key of the
    account, and under it one entry for each such event row, carrying the
    four columns of the row, and no other entry.  The order of the entries
    is the one the engine answered in. *)
Theorem GetAccount_events_since accountID eventsSince w r w' :
  GetAccount Key wrapKey accountID true eventsSince w = (inr r, w') ->
  let wanted := List.filter (listed accountID eventsSince) (events (db w)) in
  match persistence.AccountResult.Events r with
  | None => wanted = []
  | Some m =>
      wanted <> [] /\
      exists results,
        m = {[ accountID := results ]} /\
        results ≡ₚ
          map (fun e => persistence.EventResult.mk
                          (Event.HashedUserID e) (Event.EventID e)
                          (Event.Payload e) (Event.AccountID e)) wanted
  end.
Proof.
  intros H wanted. apply GetAccount_success in H as (a & key & Ha & _ & ->). simpl.
  apply find_some in Ha as [_ Ha]. apply account_is_eq in Ha.
  pose proof (load_events_listed accountID eventsSince (db w) a Ha) as Hles.
  fold wanted in Hles.
  set (les := load_events (queryDB true eventsSince) (db w) a) in *.
  assert (forall le, In le les -> Event.AccountID (evt le) = accountID) as Hk.
  { intros le Hle. apply (in_map evt) in Hle. rewrite Hles, rowOrder_In in Hle.
    apply filter_In in Hle as [_ Hle]. unfold listed in Hle.
    apply andb_true_iff in Hle as [Hle _]. by apply String.eqb_eq in Hle. }
  rewrite (collect_events accountID les Hk).
  destruct les as [|le rest] eqn:Eles.
  - simpl. simpl in Hles. symmetry in Hles.
    pose proof (rowOrder_rows wanted) as Hp. rewrite Hles in Hp.
    by apply Permutation_nil in Hp.
  - rewrite insert_empty, map_size_singleton. simpl. rewrite lookup_empty. simpl.
    split.
    + intros Hnil. pose proof (rowOrder_rows wanted) as Hp. rewrite Hnil in Hp.
      apply Permutation_nil_r in Hp. rewrite Hnil, Hp in Hles. done.
    + eexists. split; [reflexivity|].
      change (toEventResult (evt le) :: map (fun le0 => toEventResult (evt le0)) rest)
        with (map (fun le0 => toEventResult (evt le0)) (le :: rest)).
      rewrite <- (map_map evt toEventResult), Hles.
      apply Permutation_map, rowOrder_rows.
Qed.

(** C9: the result of GetAccount never contains the salt of the account.
    Two stores that differ at most in the salts of their accounts give the
    same answer, result or error, to every GetAccount call. *)
Theorem GetAccount_hides_UserSalt accountID events eventsSince w1 w2 :
  same_but_salts (db w1) (db w2) ->
  answers (storage w1) (asked (storage w1)) = answers (storage w2) (asked (storage w2)) ->
  fst (GetAccount Key wrapKey accountID events eventsSince w1) =
  fst (GetAccount Key wrapKey accountID events eventsSince w2).
Proof.
  intros (Hacc & Hus & Hev) Hst.
  unfold GetAccount, bind, r_db, pull, Find_Account, WrapPublicKey. simpl.
  rewrite Hst. destruct (answers (storage w2) _); [done|].
  pose proof (find_forget_salt accountID _ _ Hacc) as Hfind.
  destruct (find _ (accounts (db w1))) as [a1|], (find _ (accounts (db w2))) as [a2|];
    try done.
  simpl. unfold load_events, load_user. rewrite Hus, Hev.
  destruct a1, a2. unfold forget_salt in Hfind. simplify_eq/=.
  destruct (wrapKey _); [done|]. simpl.
  destruct (foldl _ _ _). done.
Qed.

(** C10: the result carries exactly one of the two keys.  With events
    requested it carries the encrypted secret key of the account and no
    public key; without, the wrapped public key and an empty encrypted
    secret key. *)
Theorem GetAccount_key_fields accountID events eventsSince w r w' :
  GetAccount Key wrapKey accountID events eventsSince w = (inr r, w') ->
  exists a,
    find (account_is accountID) (accounts (db w)) = Some a /\
    if events then
      persistence.AccountResult.PublicKey r = None /\
      persistence.AccountResult.EncryptedSecretKey r = Account.EncryptedSecretKey a
    else
      (exists key, WrapPublicKey Key wrapKey a = inr key /\
                   persistence.AccountResult.PublicKey r = Some key) /\
      persistence.AccountResult.EncryptedSecretKey r = EmptyString.
Proof.
  intros H. apply GetAccount_success in H as (a & key & Ha & Hkey & ->).
  exists a. split; [done|]. destruct events; simpl; [done|]. eauto.
Qed.

End Accounts.

(** *** CreateAccount *)

Section Create.
Variable Encrypt : string -> error + string.

(** C6: when CreateAccount returns an error, no account row has been
    written: the committed tables and the transaction are as they were. *)
Theorem CreateAccount_error_writes_nothing accountID name w e w' :
  CreateAccount Encrypt accountID name w = (inl e, w') ->
  db w' = db w /\ txn w' = txn w.
Proof.
  intros H.
  unfold CreateAccount, bind, r_db, GenerateRandomString, GenerateRSAKeypair,
    fail, ret, pull in H.
  destruct w as [d t j st uu evs rs kp]. simpl in *.
  repeat case_hyp; done.
Qed.

(** The one write of a call that returns nil stores a row whose salt, keys
    and encrypted private key were all computed before it. *)
Lemma CreateAccount_success accountID name w w' :
  CreateAccount Encrypt accountID name w = (inr tt, w') ->
  exists userSalt publicKey privateKey encryptedPrivateKey,
    answers (randomString w) (asked (randomString w)) = Some userSalt /\
    answers (keypair w) (asked (keypair w)) = Some (publicKey, privateKey) /\
    Encrypt privateKey = inr encryptedPrivateKey /\
    Save_Account (Account.mk accountID name publicKey encryptedPrivateKey userSalt) (db w)
      = inr (tt, db w').
Proof.
  intros H.
  unfold CreateAccount, bind, r_db, GenerateRandomString, GenerateRSAKeypair,
    fail, ret, pull in H.
  destruct w as [d t j st uu evs rs kp]. simpl in *.
  repeat case_hyp. drop_units.
  eexists _, _, _, _. repeat split; done.
Qed.

(** X21: a failure of the salt, of the key pair or of the encryption
    returns before any storage call is made: the call ends in an error, the
    tables are as before and the storage was not asked. *)
Lemma CreateAccount_generation_failure_skips_storage accountID name w :
  (answers (randomString w) (asked (randomString w)) = None \/
   answers (keypair w) (asked (keypair w)) = None \/
   (forall pub priv, answers (keypair w) (asked (keypair w)) = Some (pub, priv) ->
      exists err, Encrypt priv = inl err)) ->
  exists e w',
    CreateAccount Encrypt accountID name w = (inl e, w') /\
    db w' = db w /\ storage w' = storage w.
Proof.
  intros H.
  unfold CreateAccount, bind, r_db, GenerateRandomString, GenerateRSAKeypair,
    fail, ret, pull.
  destruct w as [d t j st uu evs rs kp]. simpl in *.
  destruct (answers rs (asked rs)) as [salt|]; simpl; [|by eexists _, _].
  destruct (answers kp (asked kp)) as [[pub priv]|]; simpl; [|by eexists _, _].
  destruct H as [?|[?|H]]; try done.
  destruct (H pub priv eq_refl) as [err ->]. by eexists _, _.
Qed.

End Create.

(** ** The theorems at the worked inputs *)

Section Witnesses.
#[local] Existing Instance Example.engine.

Lemma store_keys_unique : keys_unique Example.store.
Proof.
  repeat split; simpl;
    repeat (apply NoDup_cons; split;
            [rewrite ?elem_of_cons, elem_of_nil; intuition discriminate|]);
    apply NoDup_nil_2.
Qed.

(** "nope" has no account row: the error of AssociateUserSecret is generic. *)
Lemma AssociateUserSecret_unknown_account_witness :
  answers (storage Example.healthy) (asked (storage Example.healthy)) = false /\
  find (account_is "nope") (accounts (db Example.healthy)) = None /\
  exists e,
    fst (AssociateUserSecret Example.Hash "nope" "alice" "S2" Example.healthy) = inl e /\
    e = Errorf ("relational: error looking up account with id " +:+ "nope")
          ErrRecordNotFound /\
    isUnknownAccount e = false.
Proof.
  split; [reflexivity|]. split; [reflexivity|].
  apply (AssociateUserSecret_unknown_account_is_generic
           Example.Hash "nope" "alice" "S2" Example.healthy); reflexivity.
Defined.

(** bob is new to acme: one row more, alice's row and the events untouched. *)
Lemma AssociateUserSecret_first_association_witness :
  let w' := snd (AssociateUserSecret Example.Hash "acme" "bob" "S2" Example.healthy) in
  AssociateUserSecret Example.Hash "acme" "bob" "S2" Example.healthy = (inr tt, w') /\
  users (db w') = [User.mk Example.alice "S1"; User.mk (Example.Hash "bob" "salt") "S2"] /\
  events (db w') = [Example.E1; Example.E2; Example.E3] /\
  accounts (db w') = [Example.acme].
Proof.
  split; [vm_compute; reflexivity|].
  apply (AssociateUserSecret_first_association
           Example.Hash "acme" "bob" "S2" Example.healthy _ Example.acme);
    vm_compute; reflexivity.
Defined.


(** The events of acme after the cursor E1 are E2 and E3; E1 itself is not
    among them. *)
Lemma GetAccount_events_since_witness :
  let w := Example.healthy in
  let w' := snd (GetAccount string Example.wrapKey "acme" true "E1" w) in
  let r := persistence.AccountResult.mk "acme" None "ENCRYPTED"
             (Some {[ "acme" :=
                        [persistence.EventResult.mk None "E2" "payload 2" "acme";
                         persistence.EventResult.mk (Some Example.alice) "E3"
                           "payload 3" "acme"] ]})
             (Some {[ Example.alice := "S1" ]}) in
  GetAccount string Example.wrapKey "acme" true "E1" w = (inr r, w') /\
  List.filter (listed "acme" "E1") (events (db w)) = [Example.E2; Example.E3] /\
  match persistence.AccountResult.Events r with
  | None => List.filter (listed "acme" "E1") (events (db w)) = []
  | Some m =>
      List.filter (listed "acme" "E1") (events (db w)) <> [] /\
      exists results,
        m = {[ "acme" := results ]} /\
        results ≡ₚ
          map (fun e => persistence.EventResult.mk
                          (Event.HashedUserID e) (Event.EventID e)
                          (Event.Payload e) (Event.AccountID e))
            (List.filter (listed "acme" "E1") (events (db w)))
  end.
Proof.
  intros w w' r. split; [vm_compute; reflexivity|]. split; [reflexivity|].
  apply (GetAccount_events_since string Example.wrapKey "acme" "E1" w r w').
  vm_compute; reflexivity.
Defined.

(** The same store under the salt "pepper" answers alike. *)
Lemma GetAccount_hides_UserSalt_witness :
  same_but_salts Example.store Example.resalted /\
  fst (GetAccount string Example.wrapKey "acme" true EmptyString Example.healthy) =
  fst (GetAccount string Example.wrapKey "acme" true EmptyString
         (set_db Example.resalted Example.healthy)).
Proof.
  assert (same_but_salts Example.store Example.resalted) as Hsame
    by (repeat split; reflexivity).
  split; [exact Hsame|].
  apply (GetAccount_hides_UserSalt string Example.wrapKey "acme" true EmptyString
           Example.healthy (set_db Example.resalted Example.healthy) Hsame).
  reflexivity.
Defined.

(** Without events the result has the wrapped public key of acme only. *)
Lemma GetAccount_key_fields_witness :
  let w' := snd (GetAccount string Example.wrapKey "acme" false EmptyString
                   Example.healthy) in
  let r := persistence.AccountResult.mk "acme" (Some "jwk:PUB") EmptyString None None in
  GetAccount string Example.wrapKey "acme" false EmptyString Example.healthy
    = (inr r, w') /\
  exists a,
    find (account_is "acme") (accounts (db Example.healthy)) = Some a /\
    (exists key, WrapPublicKey string Example.wrapKey a = inr key /\
                 persistence.AccountResult.PublicKey r = Some key) /\
    persistence.AccountResult.EncryptedSecretKey r = EmptyString.
Proof.
  intros w' r. split; [vm_compute; reflexivity|].
  apply (GetAccount_key_fields string Example.wrapKey "acme" false EmptyString
           Example.healthy r w').
  vm_compute; reflexivity.
Defined.

(** The key pair cannot be generated: an error, and the store as before. *)
Lemma CreateAccount_error_writes_nothing_witness :
  let out := CreateAccount Example.Encrypt "globex" "Globex" Example.keygen_fails in
  fst out = inl (Errorf "relational: error creating new key pair for account"
                   (ErrForeign "keys: generating rsa key")) /\
  db (snd out) = Example.store /\
  txn (snd out) = None.
Proof.
  split; [vm_compute; reflexivity|].
  apply (CreateAccount_error_writes_nothing Example.Encrypt "globex" "Globex"
           Example.keygen_fails
           (Errorf "relational: error creating new key pair for account"
              (ErrForeign "keys: generating rsa key"))).
  vm_compute; reflexivity.
Defined.

End Witnesses.

(** ** More on event identifiers (src/unnamed/part_000) *)

Section MoreIdentifiers.
Import persistence.
Local Open Scope Z_scope.
Variable mathrand : Z -> Z.

Lemma compare_refl_string (s : string) : String.compare s s = Eq.
Proof.
  pose proof (String.compare_antisym s s) as H.
  destruct (String.compare s s); simpl in H; congruence.
Qed.

Lemma ULID_String_compare (a b : ULID) :
  0 <= ms a < 2 ^ 48 -> 0 <= ms b < 2 ^ 48 ->
  0 <= entropy a < 2 ^ 80 -> 0 <= entropy b < 2 ^ 80 ->
  String.compare (ULID_String a) (ULID_String b) =
    match Z.compare (ms a) (ms b) with
    | Eq => Z.compare (entropy a) (entropy b)
    | c => c
    end.
Proof.
  intros Ha Hb Hea Heb. unfold ULID_String.
  rewrite base32_compare by (change (32 ^ Z.of_nat 10) with (2 ^ 50); lia).
  rewrite base32_compare by (change (32 ^ Z.of_nat 16) with (2 ^ 80); lia).
  simpl. by destruct (Z.compare (entropy a) (entropy b)).
Qed.

Lemma NewEventID_inv (t : Time) id :
  NewEventID mathrand t = inr id ->
  Timestamp t <= MaxTime /\
  id = ULID_String (mkULID (Timestamp t) (mathrand (UnixNano t) mod 2 ^ 80)).
Proof.
  unfold NewEventID, ulid_New.
  destruct (Z.ltb_spec MaxTime (Timestamp t)); [done|].
  intros [= <-]. done.
Qed.

(** X1: when every call reads the clock in a later millisecond than the call
    before it (and no reading is past the largest timestamp of a ULID), all
    calls return an identifier and the identifiers are strictly increasing
    in call order, whatever the random source draws. *)
Theorem NewEventID_increasing_over_milliseconds (clock : list Time) :
  milliseconds_increase clock ->
  strictly_increasing (NewEventIDs mathrand clock).
Proof.
  unfold NewEventIDs.
  induction clock as [|a rest IH]; [done|].
  intros (Ha & Hnext & Hrest). cbn [map].
  rewrite (NewEventID_returns mathrand a Ha).
  destruct rest as [|b rest']; [done|].
  destruct Hrest as (Hb & Hrest'). cbn [map] in *.
  rewrite (NewEventID_returns mathrand b Hb) in *.
  cbn [strictly_increasing]. split.
  - unfold String.ltb.
    pose proof (Timestamp_nonneg a). pose proof (Timestamp_nonneg b).
    pose proof (Z.mod_pos_bound (mathrand (UnixNano a)) (2 ^ 80) ltac:(lia)).
    pose proof (Z.mod_pos_bound (mathrand (UnixNano b)) (2 ^ 80) ltac:(lia)).
    unfold MaxTime in *.
    rewrite ULID_String_compare by (cbn [ms entropy]; lia). cbn [ms entropy].
    by apply Z.compare_lt_iff in Hnext as ->.
  - apply IH. split; [done|]. done.
Qed.

(** X3: two calls return the same identifier only when they read the clock
    in the same millisecond and their freshly seeded random sources drew the
    same 80 bits: the text of an identifier determines both halves. *)
Theorem NewEventID_equal_identifiers (t1 t2 : Time) id :
  NewEventID mathrand t1 = inr id ->
  NewEventID mathrand t2 = inr id ->
  Timestamp t1 = Timestamp t2 /\
  mathrand (UnixNano t1) mod 2 ^ 80 = mathrand (UnixNano t2) mod 2 ^ 80.
Proof.
  intros H1 H2.
  apply NewEventID_inv in H1 as [Hm1 E1]. apply NewEventID_inv in H2 as [Hm2 E2].
  pose proof (compare_refl_string id) as Hc. rewrite E1 in Hc at 1. rewrite E2 in Hc.
  pose proof (Timestamp_nonneg t1). pose proof (Timestamp_nonneg t2).
  pose proof (Z.mod_pos_bound (mathrand (UnixNano t1)) (2 ^ 80) ltac:(lia)).
  pose proof (Z.mod_pos_bound (mathrand (UnixNano t2)) (2 ^ 80) ltac:(lia)).
  unfold MaxTime in *.
  rewrite ULID_String_compare in Hc by (cbn [ms entropy]; lia). cbn [ms entropy] in Hc.
  destruct (Z.compare_spec (Timestamp t1) (Timestamp t2)); try done.
  split; [done|]. by apply Z.compare_eq_iff.
Qed.

Lemma base32_length n : forall v acc,
  String.length (base32 n v acc) = (n + String.length acc)%nat.
Proof.
  induction n as [|n IH]; intros v acc; [done|].
  simpl. rewrite IH. simpl. lia.
Qed.

Lemma digit_in_alphabet d : 0 <= d < 32 -> In (digit d) alphabet.
Proof.
  intros Hd.
  assert (forallb (fun x =>
            existsb (Ascii.eqb (digit (Z.of_nat x))) alphabet) (seq 0 32) = true) as H
    by (vm_compute; reflexivity).
  rewrite forallb_forall in H.
  specialize (H (Z.to_nat d) ltac:(apply in_seq; lia)).
  rewrite Z2Nat.id in H by lia.
  apply existsb_exists in H as (c & Hc & Heq). apply Ascii.eqb_eq in Heq. by subst.
Qed.

Lemma base32_alphabet n : forall v acc,
  Forall (fun c => In c alphabet) (list_ascii_of_string acc) ->
  Forall (fun c => In c alphabet) (list_ascii_of_string (base32 n v acc)).
Proof.
  induction n as [|n IH]; intros v acc Hacc; [done|].
  simpl. apply IH. simpl. apply Forall_cons. split; [|done].
  apply digit_in_alphabet. apply Z.mod_pos_bound. lia.
Qed.

(** X4: every identifier NewEventID returns is 26 characters long and made
    of characters of the Crockford alphabet of ulid only. *)
Theorem NewEventID_shape (t : Time) id :
  NewEventID mathrand t = inr id ->
  String.length id = 26%nat /\
  Forall (fun c => In c alphabet) (list_ascii_of_string id).
Proof.
  intros H. apply NewEventID_inv in H as [_ ->]. unfold ULID_String. split.
  - by rewrite !base32_length.
  - apply base32_alphabet, base32_alphabet. simpl. constructor.
Qed.

End MoreIdentifiers.

(** ** More on GetAccount *)

(** The secrets map after the loop over account.Events, when the secret an
    event carries is a function [g] of its hashed user id. *)
Lemma collect_secrets (g : string -> string) (les : list LoadedEvent) :
  (forall le h, In le les -> Event.HashedUserID (evt le) = Some h ->
     User.EncryptedUserSecret (User le) = g h) ->
  forall m u h,
    snd (foldl collect (m, u) les) !! h =
      if existsb (fun le => event_of_user h (evt le)) les then Some (g h) else u !! h.
Proof.
  induction les as [|le rest IH]; intros Hg m u h; [done|].
  simpl. destruct (Event.HashedUserID (evt le)) as [h'|] eqn:Hh'.
  - rewrite IH by (intros; eapply Hg; [by right|done]).
    unfold event_of_user at 2. rewrite Hh'.
    destruct (existsb _ rest); [by rewrite orb_true_r|]. rewrite orb_false_r.
    destruct (String.eqb_spec h' h) as [->|Hne].
    + rewrite lookup_insert_eq. f_equal. apply (Hg le); [by left|done].
    + by rewrite lookup_insert_ne.
  - rewrite IH by (intros; eapply Hg; [by right|done]).
    unfold event_of_user at 2. rewrite Hh'. done.
Qed.

Lemma load_user_secret eventsSince s e h :
  Event.HashedUserID e = Some h ->
  User.EncryptedUserSecret (User (load_user (queryDB true eventsSince) s e)) = secret_of s h.
Proof.
  intros Hh. unfold load_user, queryDB, secret_of.
  destruct (negb _); simpl; rewrite Hh; by destruct (find _ _).
Qed.

Lemma existsb_map {A B} (f : A -> B) (p : B -> bool) (l : list A) :
  existsb p (map f l) = existsb (fun x => p (f x)) l.
Proof. induction l as [|x l IH]; simpl; [done|]. by rewrite IH. Qed.

Section MoreAccounts.
Context {engine : Engine}.
Variable Key : Type.
Variable wrapKey : string -> error + Key.

(** X5: GetAccount only reads: on every run, with or without an error, the
    committed tables, the open transaction and the journal of transaction
    calls are what they were before the call. *)
Theorem GetAccount_reads_only accountID events eventsSince w :
  let w' := snd (GetAccount Key wrapKey accountID events eventsSince w) in
  db w' = db w /\ txn w' = txn w /\ journal w' = journal w.
Proof.
  unfold GetAccount, bind, r_db, fail, ret, pull, Find_Account. simpl.
  destruct (answers (storage w) _); [done|].
  destruct (find _ _) as [a|]; simpl; [|done].
  destruct (WrapPublicKey _ _ _); simpl; [done|].
  destruct (foldl _ _ _). done.
Qed.

(** X7: GetAccount returns the typed error persistence.ErrUnknownAccount
    exactly when the lookup went through and found no row for the account
    id; a failing lookup and a key that cannot be wrapped give other
    errors. *)
Theorem GetAccount_unknown_account_iff accountID events eventsSince w :
  (exists msg, fst (GetAccount Key wrapKey accountID events eventsSince w)
               = inl (ErrUnknownAccount msg)) <->
  answers (storage w) (asked (storage w)) = false /\
  find (account_is accountID) (accounts (db w)) = None.
Proof.
  unfold GetAccount, bind, r_db, fail, ret, pull, Find_Account. simpl.
  destruct (answers (storage w) _); simpl.
  { split; [intros [msg H]; done | intros [H _]; done]. }
  destruct (find _ _) as [a|]; simpl.
  - split; [|intros [_ H]; done]. intros [msg H].
    destruct (WrapPublicKey _ _ _); simpl in H; [done|].
    by destruct (foldl _ _ _).
  - split; [done|]. intros _. eauto.
Qed.

(** X8: with events requested, the secrets map of the result is nil
    exactly when no listed event carries a hashed user id; otherwise it has
    an entry for a hashed user id exactly when one of the listed events
    carries it, and the entry is the encrypted secret of the user row of
    that hash (the empty string when the hash has no row). *)
Theorem GetAccount_user_secrets accountID eventsSince w r w' :
  GetAccount Key wrapKey accountID true eventsSince w = (inr r, w') ->
  let wanted := List.filter (listed accountID eventsSince) (events (db w)) in
  match persistence.AccountResult.UserSecrets r with
  | None => forall e, In e wanted -> Event.HashedUserID e = None
  | Some m =>
      (exists e h, In e wanted /\ Event.HashedUserID e = Some h) /\
      forall h s,
        m !! h = Some s <->
        (exists e, In e wanted /\ Event.HashedUserID e = Some h) /\
        s = secret_of (db w) h
  end.
Proof.
  intros H wanted. apply GetAccount_success in H as (a & key & Ha & _ & ->).
  apply find_some in Ha as [_ Ha]. apply account_is_eq in Ha.
  pose proof (load_events_listed accountID eventsSince (db w) a Ha) as Hles.
  fold wanted in Hles.
  set (les := load_events (queryDB true eventsSince) (db w) a) in *.
  assert (forall le h0, In le les -> Event.HashedUserID (evt le) = Some h0 ->
            User.EncryptedUserSecret (User le) = secret_of (db w) h0) as Hg.
  { intros le h0 Hle Hh0. unfold les, load_events in Hle.
    destruct (existsb loads_events _); [|done].
    apply in_map_iff in Hle as (e & <- & _). by apply load_user_secret. }
  assert (forall h, existsb (fun le => event_of_user h (evt le)) les = true <->
            exists e, In e wanted /\ Event.HashedUserID e = Some h) as Hcarried.
  { intros h. rewrite <- existsb_map, Hles, existsb_exists.
    split; intros (e & He & Hh); exists e.
    - rewrite rowOrder_In in He. by rewrite <- event_of_user_eq.
    - rewrite rowOrder_In. by rewrite event_of_user_eq. }
  pose proof (fun h => collect_secrets (secret_of (db w)) les Hg ∅ ∅ h) as Hsec.
  cbn [persistence.AccountResult.UserSecrets].
  set (m := snd (foldl collect (∅, ∅) les)) in *.
  destruct (Nat.eqb_spec (size m) 0) as [Hz|Hnz].
  - apply map_size_empty_iff in Hz. intros e He.
    destruct (Event.HashedUserID e) as [h|] eqn:Hh; [|done].
    specialize (Hsec h). rewrite Hz, lookup_empty in Hsec.
    assert (existsb (fun le => event_of_user h (evt le)) les = true) as Hex
      by (apply Hcarried; eauto).
    by rewrite Hex in Hsec.
  - assert (forall h s, m !! h = Some s <->
              (exists e, In e wanted /\ Event.HashedUserID e = Some h) /\
              s = secret_of (db w) h) as Hentries.
    { intros h s. rewrite <- Hcarried, Hsec, lookup_empty.
      destruct (existsb _ les); [|by split; [|intros [? _]]].
      split; [by intros [= <-]|by intros [_ ->]]. }
    split; [|exact Hentries].
    apply map_size_non_empty_iff, map_choose in Hnz as (h & s & Hhs).
    apply Hentries in Hhs as [(e & He & Hh) _]. eauto.
Qed.

(** X9: without the events flag the answer of GetAccount depends on the
    accounts table and on the outcome of the one lookup only: two worlds
    with the same accounts and the same answer of the storage give the same
    result or error, whatever their events, users and cursors, and a result
    carries neither events nor secrets. *)
Theorem GetAccount_without_events accountID since1 since2 w1 w2 :
  accounts (db w1) = accounts (db w2) ->
  answers (storage w1) (asked (storage w1)) = answers (storage w2) (asked (storage w2)) ->
  fst (GetAccount Key wrapKey accountID false since1 w1)
    = fst (GetAccount Key wrapKey accountID false since2 w2) /\
  forall r, fst (GetAccount Key wrapKey accountID false since1 w1) = inr r ->
    persistence.AccountResult.Events r = None /\
    persistence.AccountResult.UserSecrets r = None.
Proof.
  intros Hacc Hst. split.
  - unfold GetAccount, bind, r_db, fail, ret, pull, Find_Account. simpl.
    rewrite Hacc, Hst.
    destruct (answers (storage w2) _); [done|].
    destruct (find _ _) as [a|]; simpl; [|done].
    by destruct (WrapPublicKey _ _ _).
  - intros r Hr.
    destruct (GetAccount Key wrapKey accountID false since1 w1) as [res w'] eqn:H.
    simpl in Hr. subst res.
    apply GetAccount_success in H as (a & key & _ & _ & ->). done.
Qed.

(** X6: GetAccount returns a result exactly when the lookup goes through,
    the account has a row and its public key can be wrapped; every other
    run ends in an error. *)
Theorem GetAccount_returns_iff accountID events eventsSince w :
  (exists r, fst (GetAccount Key wrapKey accountID events eventsSince w) = inr r) <->
  answers (storage w) (asked (storage w)) = false /\
  exists a key,
    find (account_is accountID) (accounts (db w)) = Some a /\
    wrapKey (Account.PublicKey a) = inr key.
Proof.
  split.
  - intros [r Hr].
    destruct (GetAccount Key wrapKey accountID events eventsSince w) as [res w'] eqn:H.
    simpl in Hr. subst res.
    assert (answers (storage w) (asked (storage w)) = false) as Hst.
    { unfold GetAccount, bind, r_db, fail, ret, pull in H. simpl in H.
      destruct (answers (storage w) _); [done|done]. }
    split; [done|].
    apply GetAccount_success in H as (a & key & Ha & Hk & _). eauto.
  - intros (Hst & a & key & Ha & Hk).
    unfold GetAccount, bind, r_db, fail, ret, pull, Find_Account, WrapPublicKey. simpl.
    rewrite Hst, Ha. simpl. rewrite Hk.
    destruct (foldl _ _ _). simpl. eauto.
Qed.

End MoreAccounts.

(** ** More on AssociateUserSecret *)

Lemma filter_none_of_find {A} (p : A -> bool) (l : list A) :
  find p l = None -> List.filter p l = [].
Proof.
  induction l as [|x l IH]; simpl; [done|].
  destruct (p x); [done|]. exact IH.
Qed.

Lemma filter_negb_filter {A} (p : A -> bool) (l : list A) :
  List.filter p (List.filter (fun x => negb (p x)) l) = [].
Proof.
  induction l as [|x l IH]; simpl; [done|].
  destruct (p x) eqn:Hp; simpl; [done|]. by rewrite Hp.
Qed.

Lemma find_of_filter_singleton {A} (p : A -> bool) (l : list A) x :
  List.filter p l = [x] -> find p l = Some x.
Proof.
  induction l as [|y l IH]; simpl; [done|].
  destruct (p y); [by intros [= ->]|]. exact IH.
Qed.

Lemma map_content_reissue parkedHash (affected : list Event.t) : forall ids,
  length affected <= length ids ->
  map content (zip_with (reissue parkedHash) affected ids) = map content affected.
Proof.
  induction affected as [|ev rest IH]; intros [|id ids] Hlen; simpl in *; try done; [lia|].
  f_equal. apply IH. lia.
Qed.

Section MoreRotation.
Context {engine : Engine}.
Variable Hash : string -> string -> string.

(** The users table after a call that returns nil has one row for the hash
    of the caller, the new one. *)
Lemma AssociateUserSecret_users_after accountID userID secret w w' a :
  AssociateUserSecret Hash accountID userID secret w = (inr tt, w') ->
  find (account_is accountID) (accounts (db w)) = Some a ->
  List.filter (user_is (HashUserID Hash a userID)) (users (db w'))
    = [User.mk (HashUserID Hash a userID) secret] /\
  accounts (db w') = accounts (db w).
Proof.
  intros H Ha.
  apply AssociateUserSecret_success in H as (a' & Ha' & H).
  rewrite Ha in Ha'. simplify_eq. simpl in H.
  assert (user_is (HashUserID Hash a' userID) (User.mk (HashUserID Hash a' userID) secret)
          = true) as Hnew by (by apply user_is_eq).
  destruct (find (user_is _) _) as [user|] eqn:Hu.
  - destruct H as (parkedID & ids & affected & table & _ & _ & _ & _ & _ & ->). simpl.
    rewrite List.filter_app, filter_negb_filter. simpl. by rewrite Hnew.
  - rewrite H. simpl. rewrite List.filter_app, (filter_none_of_find _ _ Hu). simpl.
    by rewrite Hnew.
Qed.

(** X14: after a call that returns nil the hash of the caller has exactly
    one user row, and it holds the secret of the call: a lookup by the hash
    finds that row, and no other row of the table carries the hash. *)
Theorem AssociateUserSecret_one_row_for_hash accountID userID secret w w' a :
  AssociateUserSecret Hash accountID userID secret w = (inr tt, w') ->
  find (account_is accountID) (accounts (db w)) = Some a ->
  find (user_is (HashUserID Hash a userID)) (users (db w'))
    = Some (User.mk (HashUserID Hash a userID) secret) /\
  forall u, In u (users (db w')) ->
    User.HashedUserID u = HashUserID Hash a userID ->
    u = User.mk (HashUserID Hash a userID) secret.
Proof.
  intros H Ha. destruct (AssociateUserSecret_users_after _ _ _ _ _ _ H Ha) as [Hone _].
  split; [by apply find_of_filter_singleton|].
  intros u Hin Hid.
  assert (In u (List.filter (user_is (HashUserID Hash a userID)) (users (db w')))) as Hf
    by (apply filter_In; split; [done|by apply user_is_eq]).
  rewrite Hone in Hf. by destruct Hf as [<-|[]].
Qed.

(** X15: AssociateUserSecret never writes the accounts table: on every run,
    whatever fails and wherever it stops, the committed account rows are the
    ones from before the call. *)
Theorem AssociateUserSecret_never_writes_accounts accountID userID secret w :
  accounts (db (snd (AssociateUserSecret Hash accountID userID secret w)))
  = accounts (db w).
Proof.
  destruct (AssociateUserSecret Hash accountID userID secret w) as [[e|[]] w'] eqn:H; simpl.
  - unfold AssociateUserSecret, park, bind, r_db, r_txn, Begin, Commit, NewV4, Rollback,
      fail, ret, pull in H.
    destruct w as [d t j st uu evs rs kp]. simpl in *.
    unfold Find_Account, First_User, Find_Events, Create_User, Delete_User in H.
    repeat case_hyp.
    all: try match goal with H : migrate _ _ _ = (inl _, _) |- _ =>
               apply migrate_failure in H; simpl in H; destruct H as (? & ? & ?) end.
    all: try match goal with H : migrate _ _ _ = (inr ?u, _) |- _ =>
               destruct u; eapply migrate_success in H; [|simpl; reflexivity];
               simpl in H; destruct H as (? & ? & ? & ? & ? & ? & ?) end.
    all: unfold ret in *; simplify_eq/=.
    all: try done.
    all: congruence.
  - apply AssociateUserSecret_success in H as (a & Ha & H). simpl in H.
    destruct (find (user_is _) _).
    + by destruct H as (? & ? & ? & ? & _ & _ & _ & _ & _ & ->).
    + by rewrite H.
Qed.

(** The events table after a call that returns nil, for unique event
    identifiers: what was not bound to the hash of the caller, in its order,
    then the reissued events; [moved] is empty when the read of the affected
    events failed. *)
Lemma AssociateUserSecret_events_after accountID userID secret w w' a :
  AssociateUserSecret Hash accountID userID secret w = (inr tt, w') ->
  find (account_is accountID) (accounts (db w)) = Some a ->
  NoDup (map Event.EventID (events (db w))) ->
  events (db w') = events (db w) \/
  exists parkedHash ids,
    parkedHash <> HashUserID Hash a userID /\
    length (List.filter (event_of_user (HashUserID Hash a userID)) (events (db w)))
      <= length ids /\
    events (db w') =
      List.filter (fun e => negb (event_of_user (HashUserID Hash a userID) e)) (events (db w))
        ++ zip_with (reissue parkedHash)
             (rowOrder
                (List.filter (event_of_user (HashUserID Hash a userID)) (events (db w))))
             ids.
Proof.
  intros H Ha Hnd.
  apply AssociateUserSecret_success in H as (a' & Ha' & H).
  rewrite Ha in Ha'. simplify_eq. simpl in H.
  destruct (find (user_is _) _) as [user|] eqn:Hu; [|left; by rewrite H].
  destruct H as (parkedID & ids & affected & table & _ & Hfresh & -> & _ & Hrel & ->).
  simpl. destruct (answers _ _).
  { left. simpl in Hrel. by simplify_eq. }
  right. exists (HashUserID Hash a' parkedID), ids.
  apply relocate_exact in Hrel as (-> & Hlen & _); [|done| |].
  - split; [|split].
    + intros Heq. apply not_true_iff_false in Hfresh. apply Hfresh.
      apply existsb_exists. exists user. rewrite Heq. by apply find_some in Hu.
    + by rewrite <- (Permutation_length (rowOrder_rows _)).
    + f_equal. apply filter_ext_in. intros e He. f_equal. rewrite moved_rowOrder.
      by apply moved_of_user.
  - by apply rowOrder_NoDup, NoDup_map_filter.
  - intros e He. rewrite rowOrder_In in He. by apply filter_In in He as [? _].
Qed.

(** X16: a call that returns nil leaves the rows of everybody else alone:
    every user row under another hash is still there, and so is every event
    that is not bound to the hash of the caller (anonymous events and the
    events of other users), for unique event ids. *)
Theorem AssociateUserSecret_leaves_others accountID userID secret w w' a :
  AssociateUserSecret Hash accountID userID secret w = (inr tt, w') ->
  find (account_is accountID) (accounts (db w)) = Some a ->
  NoDup (map Event.EventID (events (db w))) ->
  (forall u, In u (users (db w)) ->
     User.HashedUserID u <> HashUserID Hash a userID -> In u (users (db w'))) /\
  (forall e, In e (events (db w)) ->
     Event.HashedUserID e <> Some (HashUserID Hash a userID) -> In e (events (db w'))).
Proof.
  intros H Ha Hnd. split.
  - intros u Hin Hne.
    apply AssociateUserSecret_success in H as (a' & Ha' & H).
    rewrite Ha in Ha'. simplify_eq. simpl in H.
    assert (negb (user_is (HashUserID Hash a' userID) u) = true) as Hkeep.
    { apply negb_true_iff, not_true_is_false. by rewrite user_is_eq. }
    destruct (find (user_is _) _) as [user|].
    + destruct H as (? & ? & ? & ? & _ & _ & _ & _ & _ & ->). simpl.
      apply in_or_app. left. apply filter_In. split; [|done].
      apply in_or_app. by left.
    + rewrite H. simpl. apply in_or_app. by left.
  - intros e Hin Hne.
    destruct (AssociateUserSecret_events_after _ _ _ _ _ _ H Ha Hnd)
      as [->|(parkedHash & ids & _ & _ & ->)]; [done|].
    apply in_or_app. left. apply filter_In. split; [done|].
    apply negb_true_iff, not_true_is_false. by rewrite event_of_user_eq.
Qed.

(** X17: a call that returns nil neither loses nor duplicates an event,
    for unique event ids: the pairs of account id and payload in the events
    table afterwards are a permutation of those before. *)
Theorem AssociateUserSecret_loses_no_event accountID userID secret w w' :
  AssociateUserSecret Hash accountID userID secret w = (inr tt, w') ->
  NoDup (map Event.EventID (events (db w))) ->
  Permutation (map content (events (db w'))) (map content (events (db w))).
Proof.
  intros H Hnd.
  pose proof H as H'. apply AssociateUserSecret_success in H' as (a & Ha & _).
  destruct (AssociateUserSecret_events_after _ _ _ _ _ _ H Ha Hnd)
    as [->|(parkedHash & ids & _ & Hlen & ->)]; [done|].
  rewrite map_app, map_content_reissue
    by (by rewrite (Permutation_length (rowOrder_rows _))).
  rewrite (Permutation_map content (rowOrder_rows _)), <- map_app.
  apply Permutation_map. symmetry. apply filter_split_permutation.
Qed.

(** X18: two calls in a row for the same user, both returning nil: the
    second parks the secret of the first under the hash of a fresh uuid and
    leaves the hash of the user with one row, holding the second secret. *)
Theorem AssociateUserSecret_twice accountID userID secret1 secret2 w w1 w2 a :
  find (account_is accountID) (accounts (db w)) = Some a ->
  AssociateUserSecret Hash accountID userID secret1 w = (inr tt, w1) ->
  AssociateUserSecret Hash accountID userID secret2 w1 = (inr tt, w2) ->
  let h := HashUserID Hash a userID in
  List.filter (user_is h) (users (db w2)) = [User.mk h secret2] /\
  exists parkedID,
    answers (uuid w1) (asked (uuid w1)) = Some parkedID /\
    HashUserID Hash a parkedID <> h /\
    In (User.mk (HashUserID Hash a parkedID) secret1) (users (db w2)).
Proof.
  intros Ha H1 H2 h. subst h.
  destruct (AssociateUserSecret_users_after _ _ _ _ _ _ H1 Ha) as [Hone Hacc].
  assert (find (account_is accountID) (accounts (db w1)) = Some a) as Ha1
    by (by rewrite Hacc).
  destruct (AssociateUserSecret_users_after _ _ _ _ _ _ H2 Ha1) as [Htwo _].
  split; [exact Htwo|].
  apply find_of_filter_singleton in Hone.
  apply AssociateUserSecret_success in H2 as (a' & Ha' & H2).
  rewrite Ha1 in Ha'. simplify_eq. simpl in H2. rewrite Hone in H2.
  destruct H2 as (parkedID & ids & affected & table & Huuid & Hfresh & _ & _ & _ & ->).
  exists parkedID. split; [done|].
  assert (HashUserID Hash a' parkedID <> HashUserID Hash a' userID) as Hne.
  { intros Heq. apply not_true_iff_false in Hfresh. apply Hfresh.
    apply existsb_exists. exists (User.mk (HashUserID Hash a' userID) secret1). rewrite Heq.
    split; [exact (proj1 (find_some _ _ Hone))|]. by apply user_is_eq. }
  split; [done|]. simpl.
  apply in_or_app. left. apply filter_In. split.
  - apply in_or_app. right. by left.
  - apply negb_true_iff, not_true_is_false. by rewrite user_is_eq.
Qed.

End MoreRotation.

(** ** More on CreateAccount, and the two versions of GetAccount *)

Lemma find_app_first {A} (p : A -> bool) (l1 l2 : list A) :
  find p (l1 ++ l2) = match find p l1 with Some x => Some x | None => find p l2 end.
Proof.
  induction l1 as [|x l1 IH]; simpl; [done|]. by destruct (p x).
Qed.

Lemma find_none_of_existsb {A} (p : A -> bool) (l : list A) :
  existsb p l = false -> find p l = None.
Proof.
  induction l as [|x l IH]; simpl; [done|].
  destruct (p x); [done|]. exact IH.
Qed.

(** What a Save that goes through has done: under a key that is not the
    zero value the row is there afterwards; the rows under other keys, the
    users and the events are as before. *)
Lemma Save_Account_stores a s s' :
  Save_Account a s = inr (tt, s') ->
  (Account.AccountID a <> EmptyString ->
   find (account_is (Account.AccountID a)) (accounts s') = Some a) /\
  users s' = users s /\ events s' = events s /\
  forall b, Account.AccountID b <> Account.AccountID a ->
    (In b (accounts s') <-> In b (accounts s)).
Proof.
  unfold Save_Account.
  assert (account_is (Account.AccountID a) a = true) as Hself by (by apply account_is_eq).
  destruct (String.eqb_spec (Account.AccountID a) EmptyString) as [Hzero|Hkey].
  { intros [= <-]. done. }
  destruct (existsb _ _) eqn:Hex.
  - intros [= <-]. simpl.
    split; [intros _|split; [done|split; [done|]]].
    + clear -Hex Hself. induction (accounts s) as [|x l IH]; simpl in *; [done|].
      destruct (account_is (Account.AccountID a) x) eqn:Hx; simpl.
      * by rewrite Hself.
      * rewrite Hx. by apply IH.
    + intros b Hb. rewrite in_map_iff. split.
      * intros (x & Hx & Hin). destruct (account_is _ x) eqn:Hax; by subst.
      * intros Hin. exists b. split; [|done].
        destruct (account_is _ b) eqn:Hab; [|done].
        apply account_is_eq in Hab. done.
  - intros [= <-]. simpl. split; [intros _|split; [done|split; [done|]]].
    + rewrite find_app_first, (find_none_of_existsb _ _ Hex). simpl. by rewrite Hself.
    + intros b Hb. rewrite in_app_iff. simpl. split; [|by left].
      intros [?|[<-|[]]]; done.
Qed.

Section MoreCreate.
Context {engine : Engine}.
Variable Key : Type.
Variable wrapKey : string -> error + Key.
Variable Encrypt : string -> error + string.

(** X19: an account that CreateAccount stored under an id that is not the
    empty string can be read back: after a call that returns nil, and if
    the next lookup goes through, GetAccount for the same id returns the id,
    the encrypted private key of the call (with events) or the wrapped
    public key of the call (without), and can fail only where that public
    key cannot be wrapped.  (Under the empty id the row goes in without its
    key and is not found again.) *)
Theorem CreateAccount_then_GetAccount accountID name events eventsSince w w' :
  accountID <> EmptyString ->
  CreateAccount Encrypt accountID name w = (inr tt, w') ->
  answers (storage w') (asked (storage w')) = false ->
  exists userSalt publicKey privateKey encryptedPrivateKey,
    answers (randomString w) (asked (randomString w)) = Some userSalt /\
    answers (keypair w) (asked (keypair w)) = Some (publicKey, privateKey) /\
    Encrypt privateKey = inr encryptedPrivateKey /\
    find (account_is accountID) (accounts (db w'))
      = Some (Account.mk accountID name publicKey encryptedPrivateKey userSalt) /\
    match fst (GetAccount Key wrapKey accountID events eventsSince w') with
    | inr r =>
        persistence.AccountResult.AccountID r = accountID /\
        persistence.AccountResult.EncryptedSecretKey r
          = (if events then encryptedPrivateKey else EmptyString) /\
        persistence.AccountResult.PublicKey r
          = (if events then None
             else match wrapKey publicKey with inr key => Some key | inl _ => None end)
    | inl e => exists err, wrapKey publicKey = inl err
    end.
Proof.
  intros Hid H Hst.
  apply CreateAccount_success in H as (salt & pub & priv & enc & Hs & Hk & He & Hsave).
  exists salt, pub, priv, enc. split; [done|]. split; [done|]. split; [done|].
  apply Save_Account_stores in Hsave as (Hfind & _). simpl in Hfind.
  specialize (Hfind Hid). split; [done|].
  unfold GetAccount, bind, r_db, fail, ret, pull, Find_Account, WrapPublicKey. simpl.
  rewrite Hst, Hfind. simpl.
  destruct (wrapKey pub) as [err|key]; simpl; [eauto|].
  destruct (foldl _ _ _). simpl. by destruct events.
Qed.

(** X20: CreateAccount touches one account row at most: on every run the
    users, the events, the transaction and its journal are as before, and
    so is every account row under another id. *)
Theorem CreateAccount_touches_one_account accountID name w :
  let w' := snd (CreateAccount Encrypt accountID name w) in
  users (db w') = users (db w) /\
  events (db w') = events (db w) /\
  txn w' = txn w /\ journal w' = journal w /\
  forall b, Account.AccountID b <> accountID ->
    (In b (accounts (db w')) <-> In b (accounts (db w))).
Proof.
  destruct (CreateAccount Encrypt accountID name w) as [[e|[]] w'] eqn:H; simpl.
  - unfold CreateAccount, bind, r_db, GenerateRandomString, GenerateRSAKeypair,
      fail, ret, pull in H.
    destruct w as [d t j st uu evs rs kp]. simpl in *.
    repeat case_hyp; done.
  - pose proof H as H'.
    apply CreateAccount_success in H' as (salt & pub & priv & enc & _ & _ & _ & Hsave).
    apply Save_Account_stores in Hsave as (_ & Hu & He & Hothers). simpl in Hothers.
    split; [done|]. split; [done|].
    unfold CreateAccount, bind, r_db, GenerateRandomString, GenerateRSAKeypair,
      fail, ret, pull in H.
    destruct w as [d t j st uu evs rs kp]. simpl in *.
    repeat case_hyp. done.
Qed.

(** X10: the GetAccount of accounts.go, called without the events flag,
    agrees with the earlier GetAccount of part_001: both return the same
    result or both fail, and where the later one reports an unknown account
    the earlier one did too. *)
Theorem GetAccount_agrees_with_part_001 accountID eventsSince w :
  match fst (part_001.GetAccount Key wrapKey accountID w),
        fst (GetAccount Key wrapKey accountID false eventsSince w) with
  | inr r0, inr r => r0 = r
  | inl e0, inl e => isUnknownAccount e = true -> isUnknownAccount e0 = true
  | _, _ => False
  end.
Proof.
  unfold part_001.GetAccount, GetAccount, bind, r_db, fail, ret, pull, Find_Account,
    WrapPublicKey. simpl.
  destruct (answers (storage w) _); simpl; [done|].
  destruct (find _ _) as [a|]; simpl; [|done].
  destruct (wrapKey _) as [err|key]; simpl; done.
Qed.

End MoreCreate.

(** ** The handlers of package router *)

Section Router.
Import router.
Context {db : Database}.
Variable Cookie : Type.
Variable userCookie : string -> Cookie.
Variable isUnknownUser : error -> bool.

(** X22: postEvents re-issues the user cookie exactly when the body was
    decoded, Insert returned nil and the request carried a user id that is
    not empty; an anonymous event, a rejected body and a failed Insert set
    no cookie. *)
Theorem postEvents_cookie (c : Context) (w : World) :
  SetCookie (fst (postEvents Cookie userCookie isUnknownUser c w)) =
    match cookieValue c, bindEvent c with
    | Some userID, inr evt =>
        match fst (Insert userID (inboundEventPayload.AccountID evt)
                     (inboundEventPayload.Payload evt) w) with
        | inr _ => if String.eqb userID EmptyString then [] else [userCookie userID]
        | inl _ => []
        end
    | _, _ => []
    end.
Proof.
  unfold postEvents, cookieOrEmpty.
  destruct (cookieValue c) as [userID|], (bindEvent c) as [err|evt]; simpl; try done.
  - destruct (Insert _ _ _ w) as [[e|[]] w']; simpl; [|done].
    by destruct (isUnknownAccount e), (isUnknownUser e).
  - destruct (Insert _ _ _ w) as [[e|[]] w']; simpl; [|done].
    by destruct (isUnknownAccount e), (isUnknownUser e).
Qed.

(** X23: a handler reaches the persistence layer through one call at most:
    the world after postEvents, getEvents, getDeletedEvents, purgeEvents and
    getHealth is the world after their one call of Insert, Query,
    GetDeletedEvents, Purge and CheckHealth, and the world as it was when
    the request is turned down before the call (a body that does not decode,
    a context without a user id in getEvents). *)
Theorem handlers_touch_storage_through_one_call (c : Context) (w : World) :
  snd (postEvents Cookie userCookie isUnknownUser c w) =
    match bindEvent c with
    | inl _ => w
    | inr evt => snd (Insert (cookieOrEmpty c) (inboundEventPayload.AccountID evt)
                        (inboundEventPayload.Payload evt) w)
    end /\
  snd (getEvents Cookie c w) =
    match cookieValue c with
    | None => w
    | Some userID => snd (Query (getQuery.mk (urlQuery c) userID) w)
    end /\
  snd (getDeletedEvents Cookie c w) =
    match bindDeleted c with
    | inl _ => w
    | inr query => snd (GetDeletedEvents (EventIDs query) (cookieOrEmpty c) w)
    end /\
  snd (purgeEvents Cookie c w) = snd (Purge (cookieOrEmpty c) w) /\
  snd (getHealth Cookie c w) = snd (CheckHealth w).
Proof.
  unfold postEvents, getEvents, getDeletedEvents, purgeEvents, getHealth.
  repeat split.
  - destruct (bindEvent c) as [err|evt]; [done|].
    by destruct (Insert _ _ _ w) as [[e|[]] w'].
  - destruct (cookieValue c) as [userID|]; [|done].
    by destruct (Query _ w) as [[e|r] w'].
  - destruct (bindDeleted c) as [err|q]; [done|].
    by destruct (GetDeletedEvents _ _ w) as [[e|r] w'].
  - by destruct (Purge _ w) as [[e|[]] w'].
  - by destruct (CheckHealth w) as [[e|[]] w'].
Qed.

(** X24: a handler answers with a status below 400 exactly when it made
    its call to the persistence layer and the call returned nil: no error of
    the layer and no rejected request is answered as a success. *)
Theorem handlers_succeed_with_storage (c : Context) (w : World) :
  (Status (fst (postEvents Cookie userCookie isUnknownUser c w)) <? 400)%Z =
    match bindEvent c with
    | inl _ => false
    | inr evt => returned_nil (fst (Insert (cookieOrEmpty c) (inboundEventPayload.AccountID evt)
                            (inboundEventPayload.Payload evt) w))
    end /\
  (Status (fst (getEvents Cookie c w)) <? 400)%Z =
    match cookieValue c with
    | None => false
    | Some userID => returned_nil (fst (Query (getQuery.mk (urlQuery c) userID) w))
    end /\
  (Status (fst (getDeletedEvents Cookie c w)) <? 400)%Z =
    match bindDeleted c with
    | inl _ => false
    | inr query => returned_nil (fst (GetDeletedEvents (EventIDs query) (cookieOrEmpty c) w))
    end /\
  (Status (fst (purgeEvents Cookie c w)) <? 400)%Z = returned_nil (fst (Purge (cookieOrEmpty c) w)) /\
  (Status (fst (getHealth Cookie c w)) <? 400)%Z = returned_nil (fst (CheckHealth w)).
Proof.
  unfold postEvents, getEvents, getDeletedEvents, purgeEvents, getHealth.
  repeat split.
  - destruct (bindEvent c) as [err|evt]; [done|].
    destruct (Insert _ _ _ w) as [[e|[]] w']; simpl; [|done].
    by destruct (isUnknownAccount e), (isUnknownUser e).
  - destruct (cookieValue c) as [userID|]; [|done].
    by destruct (Query _ w) as [[e|r] w'].
  - destruct (bindDeleted c) as [err|q]; [done|].
    by destruct (GetDeletedEvents _ _ w) as [[e|r] w'].
  - by destruct (Purge _ w) as [[e|[]] w'].
  - by destruct (CheckHealth w) as [[e|[]] w'].
Qed.
End Router.

(** ** When the calls return nil, and what an error after Commit leaves *)

Lemma storage_answers_next (st : Src bool) :
  (forall i, answers st (asked st + i)%nat = false) ->
  answers st (asked st) = false /\
  (forall i, answers st (S (asked st) + i)%nat = false).
Proof.
  intros H. split.
  - specialize (H 0%nat). by rewrite Nat.add_0_r in H.
  - intros i. specialize (H (S i)). by rewrite Nat.add_succ_r in H.
Qed.

Lemma storage_answers_from (st : Src bool) (k : nat) :
  (forall i, answers st (asked st + i)%nat = false) ->
  forall i, answers st (k + asked st + i)%nat = false.
Proof.
  intros H i. specialize (H (k + i)%nat).
  by replace (asked st + (k + i))%nat with (k + asked st + i)%nat in H by lia.
Qed.

Lemma storage_answers_at (st : Src bool) (k : nat) :
  (forall i, answers st (asked st + i)%nat = false) ->
  answers st (k + asked st)%nat = false.
Proof.
  intros H. specialize (H k). by rewrite Nat.add_comm in H.
Qed.

Lemma existsb_filter_negb {A} (p : A -> bool) (l : list A) :
  existsb p (List.filter (fun x => negb (p x)) l) = false.
Proof.
  induction l as [|x l IH]; simpl; [done|].
  destruct (p x) eqn:Hp; simpl; [done|]. by rewrite Hp.
Qed.

(** The loop of the migration goes through when the storage does not fail
    and the new identifiers are there and collide with no row. *)
Lemma migrate_returns parkedHash affected : forall w s ids table,
  txn w = Some s ->
  (forall i, answers (storage w) (asked (storage w) + i)%nat = false) ->
  map Some ids = answers_from (eventID w) (length affected) ->
  relocate parkedHash affected ids (events s) = Some table ->
  exists w',
    migrate parkedHash affected w = (inr tt, w') /\
    txn w' = Some (set_events table s) /\
    db w' = db w /\ journal w' = journal w /\
    (forall i, answers (storage w') (asked (storage w') + i)%nat = false).
Proof.
  induction affected as [|ev rest IH]; intros w s ids table Ht Hst Hids Hrel.
  - simpl in Hrel. simplify_eq. exists w. unfold ret. simpl.
    split; [done|]. split; [rewrite Ht; by destruct s|done].
  - destruct ids as [|newID ids']; [done|].
    cbn [length] in Hids. rewrite answers_from_S in Hids. simpl in Hids, Hrel.
    injection Hids as Hid Hids.
    destruct (existsb _ _) eqn:Hfresh in Hrel; [done|].
    destruct w as [d t j st uu evs rs kp]. simpl in *. subst t.
    apply storage_answers_next in Hst as [H0 Hst]. simpl in *.
    pose proof (storage_answers_next (mkSrc (answers st) (S (asked st))) Hst) as [H1 Hst'].
    simpl in *.
    unfold bind, newEventID, r_txn, pull, Delete_Event, Create_Event. simpl.
    rewrite <- Hid. simpl. rewrite H0. simpl. rewrite H1. simpl. rewrite Hfresh. simpl.
    match goal with |- context [migrate parkedHash rest ?w0] =>
      edestruct (IH w0 _ ids' table eq_refl Hst' Hids) as (w' & Hm & Htx & Hdb & Hj & Hst'')
    end.
    { destruct s; exact Hrel. }
    exists w'. rewrite Hm. split; [done|].
    split; [rewrite Htx; by destruct s|done].
Qed.

(** An error of the loop is wrapped. *)
Lemma migrate_error_wrapped parkedHash affected : forall w w' e,
  migrate parkedHash affected w = (inl e, w') ->
  exists err, e = Errorf migrating err.
Proof.
  induction affected as [|ev rest IH]; intros w w' e H.
  - simpl in H. unfold ret in H. simplify_eq.
  - simpl in H.
    unfold bind, newEventID, r_txn, Rollback, fail, pull in H.
    destruct w as [d t j st uu evs rs kp]. simpl in *.
    repeat case_hyp; eauto.
Qed.

Section Returns.
Context {engine : Engine}.
Variable Hash : string -> string -> string.

(** X25: AssociateUserSecret returns nil whenever the storage does not
    fail, the account has a row and, where the hash of the caller is taken,
    uuid.NewV4 answers with an id whose hash is free and newEventID answers
    with identifiers that collide with no event row; a caller whose hash is
    free needs the first two only. *)
Theorem AssociateUserSecret_returns_nil accountID userID secret w a :
  storage_answers w ->
  find (account_is accountID) (accounts (db w)) = Some a ->
  let h := HashUserID Hash a userID in
  match find (user_is h) (users (db w)) with
  | None => True
  | Some user =>
      exists parkedID ids table,
        answers (uuid w) (asked (uuid w)) = Some parkedID /\
        existsb (user_is (HashUserID Hash a parkedID)) (users (db w)) = false /\
        map Some ids = answers_from (eventID w)
                         (length (List.filter (event_of_user h) (events (db w)))) /\
        relocate (HashUserID Hash a parkedID)
          (rowOrder (List.filter (event_of_user h) (events (db w)))) ids (events (db w))
          = Some table
  end ->
  fst (AssociateUserSecret Hash accountID userID secret w) = inr tt.
Proof.
  intros Hst Ha h Hu. unfold storage_answers in Hst.
  destruct w as [d t j st uu evs rs kp]. simpl in *.
  pose proof (storage_answers_at st 0 Hst) as H0.
  pose proof (storage_answers_at st 1 Hst) as H1.
  pose proof (storage_answers_at st 2 Hst) as H2.
  pose proof (storage_answers_at st 3 Hst) as H3.
  pose proof (storage_answers_at st 4 Hst) as H4.
  simpl in H0, H1, H2, H3, H4.
  unfold AssociateUserSecret, bind, r_db, Begin, pull, Find_Account, First_User. simpl.
  rewrite H0, Ha. simpl. rewrite H1. simpl. fold h.
  destruct (find (user_is h) (users d)) as [user|] eqn:Hrow; simpl.
  - destruct Hu as (parkedID & ids & table & Huu & Hfree & Hids & Hrel).
    unfold park, bind, NewV4, r_txn, r_db, pull, Create_User, Delete_User, Find_Events.
    simpl. rewrite Huu. simpl. rewrite H2. simpl. rewrite Hfree. simpl.
    rewrite H3. simpl. rewrite H4. simpl.
    rewrite <- (Permutation_length (rowOrder_rows _)) in Hids.
    match goal with |- context [migrate ?p ?aff ?w0] =>
      destruct (migrate_returns p aff w0 _ ids table eq_refl
                  (storage_answers_from st 5 Hst) Hids) as
        (w' & Hm & Htx & Hdb & Hj & Hst')
    end.
    { destruct d; exact Hrel. }
    fold h in Hm. rewrite Hm. simpl.
    destruct w' as [d' t' j' st' uu' evs' rs' kp']. simpl in *. subst.
    pose proof (storage_answers_at st' 0 Hst') as H5.
    pose proof (storage_answers_at st' 1 Hst') as H6.
    simpl in H5, H6.
    unfold Commit, pull, ret, fail. simpl. rewrite H5. simpl. rewrite H6. simpl.
    unfold Create_User. simpl.
    by rewrite existsb_filter_negb.
  - unfold ret, Commit, pull. simpl. rewrite H2. simpl. rewrite H3. simpl.
    unfold Create_User. simpl.
    assert (existsb (user_is h) (users d) = false) as ->; [|done].
    apply not_true_is_false. intros Hex. apply existsb_exists in Hex as (u & Hin & Hu').
    by rewrite (find_none _ _ Hrow u Hin) in Hu'.
Qed.

(** X26: a call that returns nil has begun one transaction and committed
    it, and leaves none open. *)
Theorem AssociateUserSecret_commits_one_transaction accountID userID secret w w' :
  AssociateUserSecret Hash accountID userID secret w = (inr tt, w') ->
  journal w' = journal w ++ [TxBegin; TxCommit] /\ txn w' = None.
Proof.
  intros H.
  unfold AssociateUserSecret, park, bind, r_db, r_txn, Begin, Commit, NewV4, Rollback,
    fail, ret, pull in H.
  destruct w as [d t j st uu evs rs kp]. simpl in *.
  unfold Find_Account, First_User, Find_Events, Create_User, Delete_User in H.
  repeat case_hyp.
  all: try match goal with H : migrate _ _ _ = (inr ?u, _) |- _ =>
             destruct u; eapply migrate_success in H; [|simpl; reflexivity];
             simpl in H; destruct H as (? & ? & ? & ? & ? & ? & ?) end.
  all: unfold ret in *; simplify_eq/=.
  all: repeat match goal with
         | H : journal ?w = _ |- context [journal ?w] => rewrite H
         end.
  all: rewrite <- ?app_assoc; done.
Qed.

(** X27: the insert of the new row comes after Commit and outside the
    transaction.  When it fails in the driver for a caller whose hash was
    taken, the call returns the bare driver error while the migration stays
    committed: the hash of the caller has no user row any more, and the old
    secret sits under the parked hash. *)
Theorem AssociateUserSecret_insert_failure_after_commit accountID userID secret w w' a user :
  AssociateUserSecret Hash accountID userID secret w = (inl ErrBadConn, w') ->
  find (account_is accountID) (accounts (db w)) = Some a ->
  find (user_is (HashUserID Hash a userID)) (users (db w)) = Some user ->
  journal w' = journal w ++ [TxBegin; TxCommit] /\
  find (user_is (HashUserID Hash a userID)) (users (db w')) = None /\
  exists parkedID,
    answers (uuid w) (asked (uuid w)) = Some parkedID /\
    In (User.mk (HashUserID Hash a parkedID) (User.EncryptedUserSecret user))
      (users (db w')).
Proof.
  intros H Ha Hu.
  unfold AssociateUserSecret, park, bind, r_db, r_txn, Begin, Commit, NewV4, Rollback,
    fail, ret, pull in H.
  destruct w as [d t j st uu evs rs kp]. simpl in *.
  unfold Find_Account, First_User, Find_Events, Create_User, Delete_User in H.
  rewrite Ha in H.
  repeat case_hyp.
  all: try match goal with H : migrate _ _ _ = (inl _, _) |- _ =>
             apply migrate_error_wrapped in H as [? ?]; done end.
  all: try match goal with H : migrate _ _ _ = (inr ?u, _) |- _ =>
             destruct u; eapply migrate_success in H; [|simpl; reflexivity];
             simpl in H; destruct H as (? & ? & ? & ? & ? & ? & ?) end.
  all: unfold ret in *; simplify_eq/=.
  all: repeat match goal with
         | H : journal ?w = _ |- context [journal ?w] => rewrite H
         end.
  all: rewrite <- ?app_assoc; simpl.
  all: (split; [done|]).
  all: (split;
        [ apply find_none_of_existsb, existsb_filter_negb
        | eexists; split; [done|];
          apply filter_In; split; [apply in_or_app; right; by left|];
          apply negb_true_iff, not_true_is_false; intros Hp;
          apply user_is_eq in Hp; simpl in Hp;
          match goal with H : find (user_is _) _ = Some ?u |- _ =>
            apply find_some in H as [Hin Hrow]; apply user_is_eq in Hrow end;
          match goal with H : existsb _ _ = false |- _ =>
            apply not_true_iff_false in H; apply H end;
          apply existsb_exists; eexists; split; [exact Hin|];
          apply user_is_eq; congruence ]).
Qed.

End Returns.

Section CreateReturns.
Variable Encrypt : string -> error + string.

(** X28: CreateAccount returns nil exactly when the salt and the key pair
    were generated, the private key was encrypted and the storage call did
    not fail in the driver, whatever the account id and whether or not it is
    taken: Save turns no row down. *)
Theorem CreateAccount_returns_iff accountID name w :
  fst (CreateAccount Encrypt accountID name w) = inr tt <->
  (exists userSalt publicKey privateKey encryptedPrivateKey,
     answers (randomString w) (asked (randomString w)) = Some userSalt /\
     answers (keypair w) (asked (keypair w)) = Some (publicKey, privateKey) /\
     Encrypt privateKey = inr encryptedPrivateKey) /\
  answers (storage w) (asked (storage w)) = false.
Proof.
  unfold CreateAccount, bind, GenerateRandomString, GenerateRSAKeypair, r_db, fail, ret,
    pull, Save_Account.
  destruct w as [d t j st uu evs rs kp]. simpl.
  destruct (answers rs (asked rs)) as [salt|]; simpl;
    [|split; [done|by intros [(? & ? & ? & ? & ? & _) _]]].
  destruct (answers kp (asked kp)) as [[pub priv]|]; simpl;
    [|split; [done|by intros [(? & ? & ? & ? & _ & ? & _) _]]].
  destruct (Encrypt priv) as [err|enc] eqn:He; simpl.
  { split; [done|]. intros [(? & ? & ? & ? & _ & ? & ?) _]. congruence. }
  destruct (answers st (asked st)); simpl; [split; [done|by intros (_ & ?)]|].
  destruct (String.eqb accountID EmptyString); simpl.
  - split; [|done]. intros _. split; [|done]. eauto 10.
  - destruct (existsb _ _); simpl; (split; [|done]); intros _; (split; [|done]); eauto 10.
Qed.

End CreateReturns.

(** ** The further theorems at the worked inputs *)

Section MoreWitnesses.
#[local] Existing Instance Example.engine.

(** A reading, one in the next second and one a second later still. *)
Lemma NewEventID_increasing_over_milliseconds_witness :
  let clock := [Example.tick; Scenario.next_second;
                persistence.mkTime 1572000002 0] in
  milliseconds_increase clock /\
  persistence.strictly_increasing (persistence.NewEventIDs Scenario.draw clock).
Proof.
  intros clock.
  assert (milliseconds_increase clock) as H by (vm_compute; intuition discriminate).
  split; [exact H|].
  exact (NewEventID_increasing_over_milliseconds Scenario.draw clock H).
Defined.

(** tick and tock share a millisecond; the generator that hands back its
    seed draws more at tock than at tick. *)
Lemma NewEventID_within_a_millisecond_witness :
  (persistence.Timestamp Example.tick = persistence.Timestamp Scenario.tock) /\
  (persistence.strictly_increasing
     (persistence.NewEventIDs Scenario.draw [Example.tick; Scenario.tock]) <->
   (Scenario.draw (persistence.UnixNano Example.tick) mod 2 ^ 80
    < Scenario.draw (persistence.UnixNano Scenario.tock) mod 2 ^ 80)%Z).
Proof.
  split; [reflexivity|].
  apply (NewEventID_within_a_millisecond Scenario.draw Example.tick Scenario.tock).
  - reflexivity.
  - vm_compute. discriminate.
Defined.

(** Under the stuck generator tick and tock get one and the same
    identifier. *)
Lemma NewEventID_equal_identifiers_witness :
  persistence.NewEventID Scenario.stuck Example.tick
    = persistence.NewEventID Scenario.stuck Scenario.tock /\
  persistence.Timestamp Example.tick = persistence.Timestamp Scenario.tock /\
  (Scenario.stuck (persistence.UnixNano Example.tick) mod 2 ^ 80
   = Scenario.stuck (persistence.UnixNano Scenario.tock) mod 2 ^ 80)%Z.
Proof.
  split; [vm_compute; reflexivity|].
  apply (NewEventID_equal_identifiers Scenario.stuck Example.tick Scenario.tock
           "01DR180T000000000000000007"); vm_compute; reflexivity.
Defined.

(** The identifier of tick under the stuck generator. *)
Lemma NewEventID_shape_witness :
  persistence.NewEventID Scenario.stuck Example.tick = inr "01DR180T000000000000000007" /\
  String.length "01DR180T000000000000000007" = 26%nat /\
  Forall (fun c => In c alphabet) (list_ascii_of_string "01DR180T000000000000000007").
Proof.
  split; [vm_compute; reflexivity|].
  apply (NewEventID_shape Scenario.stuck Example.tick). vm_compute; reflexivity.
Defined.

(** The events of acme carry alice's hash and no other: the secrets map has
    her entry alone. *)
Lemma GetAccount_user_secrets_witness :
  let w := Example.healthy in
  let w' := snd (GetAccount string Example.wrapKey "acme" true EmptyString w) in
  let r := persistence.AccountResult.mk "acme" None "ENCRYPTED"
             (Some {[ "acme" :=
                        [persistence.EventResult.mk (Some Example.alice) "E1"
                           "payload 1" "acme";
                         persistence.EventResult.mk None "E2" "payload 2" "acme";
                         persistence.EventResult.mk (Some Example.alice) "E3"
                           "payload 3" "acme"] ]})
             (Some {[ Example.alice := "S1" ]}) in
  GetAccount string Example.wrapKey "acme" true EmptyString w = (inr r, w') /\
  match persistence.AccountResult.UserSecrets r with
  | None =>
      forall e, In e (List.filter (listed "acme" EmptyString) (events (db w))) ->
        Event.HashedUserID e = None
  | Some m =>
      (exists e h, In e (List.filter (listed "acme" EmptyString) (events (db w))) /\
                   Event.HashedUserID e = Some h) /\
      forall h s,
        m !! h = Some s <->
        (exists e, In e (List.filter (listed "acme" EmptyString) (events (db w))) /\
                   Event.HashedUserID e = Some h) /\
        s = secret_of (db w) h
  end.
Proof.
  intros w w' r. split; [vm_compute; reflexivity|].
  apply (GetAccount_user_secrets string Example.wrapKey "acme" EmptyString w r w').
  vm_compute; reflexivity.
Defined.

(** The store without its events and users answers alike. *)
Lemma GetAccount_without_events_witness :
  accounts (db Example.healthy) = accounts (db Scenario.accounts_only) /\
  fst (GetAccount string Example.wrapKey "acme" false "E1" Example.healthy)
    = fst (GetAccount string Example.wrapKey "acme" false EmptyString
             Scenario.accounts_only) /\
  forall r,
    fst (GetAccount string Example.wrapKey "acme" false "E1" Example.healthy) = inr r ->
    persistence.AccountResult.Events r = None /\
    persistence.AccountResult.UserSecrets r = None.
Proof.
  split; [reflexivity|].
  apply (GetAccount_without_events string Example.wrapKey "acme" "E1" EmptyString
           Example.healthy Scenario.accounts_only); reflexivity.
Defined.

(** alice's secret is rotated: her row is parked under the hash of "parked"
    and her events E1 and E3 come back as N1 and N2 under that hash. *)
Lemma AssociateUserSecret_rotation_witness :
  AssociateUserSecret Example.Hash "acme" "alice" "S2" Example.healthy
    = (inr tt, Scenario.rotated) /\
  users (db Scenario.rotated)
    = [User.mk (Example.Hash "parked" "salt") "S1"; User.mk Example.alice "S2"] /\
  events (db Scenario.rotated)
    = [Example.E2;
       Event.mk "N1" "acme" (Some (Example.Hash "parked" "salt")) "payload 1";
       Event.mk "N2" "acme" (Some (Example.Hash "parked" "salt")) "payload 3"] /\
  exists parkedID ids,
    let h := HashUserID Example.Hash Example.acme "alice" in
    let parkedHash := HashUserID Example.Hash Example.acme parkedID in
    let affected :=
      rowOrder (List.filter (event_of_user h) (events (db Example.healthy))) in
    answers (uuid Example.healthy) (asked (uuid Example.healthy)) = Some parkedID /\
    parkedHash <> h /\
    map Some ids = answers_from (eventID Example.healthy) (length affected) /\
    accounts (db Scenario.rotated) = accounts (db Example.healthy) /\
    users (db Scenario.rotated) =
      List.filter (fun u => negb (user_is h u)) (users (db Example.healthy))
        ++ [User.mk parkedHash (User.EncryptedUserSecret (User.mk Example.alice "S1"));
            User.mk h "S2"] /\
    events (db Scenario.rotated) =
      List.filter (fun e => negb (event_of_user h e)) (events (db Example.healthy))
        ++ zip_with (reissue parkedHash) affected ids /\
    (forall e, In e (events (db Scenario.rotated)) -> Event.HashedUserID e <> Some h).
Proof.
  split; [vm_compute; reflexivity|].
  split; [vm_compute; reflexivity|].
  split; [vm_compute; reflexivity|].
  apply (AssociateUserSecret_rotation Example.Hash "acme" "alice" "S2"
           Example.healthy Scenario.rotated Example.acme (User.mk Example.alice "S1")).
  - vm_compute; reflexivity.
  - reflexivity.
  - reflexivity.
  - apply store_keys_unique.
  - reflexivity.
Defined.


(** The keys of the worked store are unique, and still are after the
    rotation of alice's secret. *)
Lemma AssociateUserSecret_keeps_keys_unique_witness :
  keys_unique (db Example.healthy) /\ keys_unique (db Scenario.rotated).
Proof.
  split; [apply store_keys_unique|].
  apply (AssociateUserSecret_keeps_keys_unique Example.Hash "acme" "alice" "S2"
           Example.healthy Scenario.rotated).
  - apply store_keys_unique.
  - vm_compute; reflexivity.
Defined.

(** After the rotation alice's hash has the one row with S2. *)
Lemma AssociateUserSecret_one_row_for_hash_witness :
  AssociateUserSecret Example.Hash "acme" "alice" "S2" Example.healthy
    = (inr tt, Scenario.rotated) /\
  find (user_is Example.alice) (users (db Scenario.rotated))
    = Some (User.mk Example.alice "S2") /\
  forall u, In u (users (db Scenario.rotated)) ->
    User.HashedUserID u = Example.alice -> u = User.mk Example.alice "S2".
Proof.
  split; [vm_compute; reflexivity|].
  apply (AssociateUserSecret_one_row_for_hash Example.Hash "acme" "alice" "S2"
           Example.healthy Scenario.rotated Example.acme).
  - vm_compute; reflexivity.
  - reflexivity.
Defined.

(** The rotation of alice's secret keeps the anonymous event E2. *)
Lemma AssociateUserSecret_leaves_others_witness :
  AssociateUserSecret Example.Hash "acme" "alice" "S2" Example.healthy
    = (inr tt, Scenario.rotated) /\
  In Example.E2 (events (db Scenario.rotated)).
Proof.
  split; [vm_compute; reflexivity|].
  refine (proj2 (AssociateUserSecret_leaves_others Example.Hash "acme" "alice" "S2"
                   Example.healthy Scenario.rotated Example.acme _ _ _) Example.E2 _ _).
  - vm_compute; reflexivity.
  - reflexivity.
  - apply store_keys_unique.
  - simpl. auto.
  - discriminate.
Defined.

(** The three payloads of acme are all there after the rotation. *)
Lemma AssociateUserSecret_loses_no_event_witness :
  AssociateUserSecret Example.Hash "acme" "alice" "S2" Example.healthy
    = (inr tt, Scenario.rotated) /\
  Permutation (map content (events (db Scenario.rotated)))
    [("acme", "payload 1"); ("acme", "payload 2"); ("acme", "payload 3")].
Proof.
  split; [vm_compute; reflexivity|].
  apply (AssociateUserSecret_loses_no_event Example.Hash "acme" "alice" "S2"
           Example.healthy Scenario.rotated).
  - vm_compute; reflexivity.
  - apply store_keys_unique.
Defined.

(** bob is given S2 and then S3: his hash holds S3, and S2 is parked. *)
Lemma AssociateUserSecret_twice_witness :
  let w2 := snd (AssociateUserSecret Example.Hash "acme" "bob" "S3" Scenario.with_bob) in
  let h := HashUserID Example.Hash Example.acme "bob" in
  AssociateUserSecret Example.Hash "acme" "bob" "S2" Example.healthy
    = (inr tt, Scenario.with_bob) /\
  AssociateUserSecret Example.Hash "acme" "bob" "S3" Scenario.with_bob = (inr tt, w2) /\
  List.filter (user_is h) (users (db w2)) = [User.mk h "S3"] /\
  exists parkedID,
    answers (uuid Scenario.with_bob) (asked (uuid Scenario.with_bob)) = Some parkedID /\
    HashUserID Example.Hash Example.acme parkedID <> h /\
    In (User.mk (HashUserID Example.Hash Example.acme parkedID) "S2") (users (db w2)).
Proof.
  intros w2 h.
  split; [vm_compute; reflexivity|].
  split; [vm_compute; reflexivity|].
  apply (AssociateUserSecret_twice Example.Hash "acme" "bob" "S2" "S3"
           Example.healthy Scenario.with_bob w2 Example.acme).
  - reflexivity.
  - vm_compute; reflexivity.
  - vm_compute; reflexivity.
Defined.

(** globex is created and read back without events. *)
Lemma CreateAccount_then_GetAccount_witness :
  CreateAccount Example.Encrypt "globex" "Globex" Example.healthy
    = (inr tt, Scenario.with_globex) /\
  fst (GetAccount string Example.wrapKey "globex" false EmptyString Scenario.with_globex)
    = inr (persistence.AccountResult.mk "globex" (Some "jwk:PUB2") EmptyString None None) /\
  exists userSalt publicKey privateKey encryptedPrivateKey,
    answers (randomString Example.healthy) (asked (randomString Example.healthy))
      = Some userSalt /\
    answers (keypair Example.healthy) (asked (keypair Example.healthy))
      = Some (publicKey, privateKey) /\
    Example.Encrypt privateKey = inr encryptedPrivateKey /\
    find (account_is "globex") (accounts (db Scenario.with_globex))
      = Some (Account.mk "globex" "Globex" publicKey encryptedPrivateKey userSalt) /\
    match fst (GetAccount string Example.wrapKey "globex" false EmptyString
                 Scenario.with_globex) with
    | inr r =>
        persistence.AccountResult.AccountID r = "globex" /\
        persistence.AccountResult.EncryptedSecretKey r = EmptyString /\
        persistence.AccountResult.PublicKey r
          = match Example.wrapKey publicKey with inr key => Some key | inl _ => None end
    | inl e => exists err, Example.wrapKey publicKey = inl err
    end.
Proof.
  split; [vm_compute; reflexivity|].
  split; [vm_compute; reflexivity|].
  apply (CreateAccount_then_GetAccount string Example.wrapKey Example.Encrypt
           "globex" "Globex" false EmptyString Example.healthy Scenario.with_globex).
  - discriminate.
  - vm_compute; reflexivity.
  - reflexivity.
Defined.

(** The key pair cannot be generated: the storage is not asked. *)
Lemma CreateAccount_generation_failure_skips_storage_witness :
  answers (keypair Example.keygen_fails) (asked (keypair Example.keygen_fails)) = None /\
  exists e w',
    CreateAccount Example.Encrypt "globex" "Globex" Example.keygen_fails = (inl e, w') /\
    db w' = db Example.keygen_fails /\ storage w' = storage Example.keygen_fails.
Proof.
  split; [reflexivity|].
  apply (CreateAccount_generation_failure_skips_storage Example.Encrypt "globex" "Globex"
           Example.keygen_fails).
  right; left; reflexivity.
Defined.

(** The healthy world rotates alice's secret: "parked" is free, N1 and N2
    are new. *)
Lemma AssociateUserSecret_returns_nil_witness :
  storage_answers Example.healthy /\
  fst (AssociateUserSecret Example.Hash "acme" "alice" "S2" Example.healthy) = inr tt.
Proof.
  assert (storage_answers Example.healthy) as H by (intros i; reflexivity).
  split; [exact H|].
  apply (AssociateUserSecret_returns_nil Example.Hash "acme" "alice" "S2"
           Example.healthy Example.acme H); [reflexivity|].
  exists "parked", ["N1"; "N2"], (events (db Scenario.rotated)).
  repeat split; vm_compute; reflexivity.
Defined.

(** The rotation of alice's secret: one Begin, one Commit. *)
Lemma AssociateUserSecret_commits_one_transaction_witness :
  AssociateUserSecret Example.Hash "acme" "alice" "S2" Example.healthy
    = (inr tt, Scenario.rotated) /\
  journal Scenario.rotated = [TxBegin; TxCommit] /\ txn Scenario.rotated = None.
Proof.
  split; [vm_compute; reflexivity|].
  apply (AssociateUserSecret_commits_one_transaction Example.Hash "acme" "alice" "S2"
           Example.healthy Scenario.rotated).
  vm_compute; reflexivity.
Defined.

(** The eleventh storage call is the insert of alice's new row: it fails,
    and alice is left without a row, S1 parked. *)
Lemma AssociateUserSecret_insert_failure_after_commit_witness :
  let out := AssociateUserSecret Example.Hash "acme" "alice" "S2"
               Scenario.insert_of_row_fails in
  out = (inl ErrBadConn, snd out) /\
  users (db (snd out)) = [User.mk (Example.Hash "parked" "salt") "S1"] /\
  journal (snd out) = journal Scenario.insert_of_row_fails ++ [TxBegin; TxCommit] /\
  find (user_is (HashUserID Example.Hash Example.acme "alice")) (users (db (snd out)))
    = None /\
  exists parkedID,
    answers (uuid Scenario.insert_of_row_fails) (asked (uuid Scenario.insert_of_row_fails))
      = Some parkedID /\
    In (User.mk (HashUserID Example.Hash Example.acme parkedID)
          (User.EncryptedUserSecret (User.mk Example.alice "S1")))
      (users (db (snd out))).
Proof.
  intros out.
  assert (out = (inl ErrBadConn, snd out)) as H by (vm_compute; reflexivity).
  split; [exact H|]. split; [vm_compute; reflexivity|].
  apply (AssociateUserSecret_insert_failure_after_commit Example.Hash "acme" "alice" "S2"
           Scenario.insert_of_row_fails (snd out) Example.acme
           (User.mk Example.alice "S1") H); reflexivity.
Defined.

End MoreWitnesses.
